(** * paddle_ocr_server: the [/ocr] handler and its box normalization

    A shallow embedding of [services/paddle-ocr/paddle_ocr_server.py].

    Python's [float] is IEEE-754 binary64; it is modelled by Rocq's primitive
    [float], whose operations are the same hardware operations.  Exceptions are
    modelled by an error monad: a call either returns a value or raises. *)

From Stdlib Require Import String List ZArith Lia Bool Floats Permutation.
Import ListNotations.

Local Open Scope float_scope.

(** ** Exceptions and the error monad *)

(** The exceptions that can leave [ocr_image].  The handler has no [try]
    block, so whatever a callee raises propagates unchanged. *)
Inductive exn : Type :=
| UnidentifiedImageError          (* PIL: the bytes are no image it knows *)
| OSError (msg : string)          (* PIL: truncated or broken image data *)
| EngineError (msg : string)      (* anything raised inside [ocr.ocr] *)
| ValueError                      (* [min()] or [max()] of an empty list *)
| TypeError.                      (* [for line in None] *)

Inductive outcome (A : Type) : Type :=
| Return (a : A)
| Raise (e : exn).

Arguments Return {A} a.
Arguments Raise {A} e.

Definition bind {A B : Type} (c : outcome A) (k : A -> outcome B) : outcome B :=
  match c with
  | Return a => k a
  | Raise e => Raise e
  end.

Notation "x <- c ;; k" := (bind c (fun x => k))
  (at level 61, c at next level, right associativity).

(** ** Data *)

(** [p] in [for p in poly]: a two-element list [[x, y]]. *)
Definition point : Type := float * float.

(** [line = [poly, (text, score)]]. *)
Definition line : Type := list point * (string * float).

(** A page of the result: the list of its lines, or [None], which the
    engine puts in place of the list of an image without text. *)
Definition page : Type := option (list line).

(** [result]: [list[ list[ [poly, (text, score)], ... ] ]], or [None]. *)
Definition ocr_result : Type := option (list page).

(** One dictionary appended to [boxes]. *)
Record box : Type := mkBox {
  x : float;
  y : float;
  width : float;
  height : float;
  text : string;
  confidence : float
}.

(** The returned dictionary [{"boxes": boxes}]. *)
Record response : Type := mkResponse { boxes : list box }.

(** ** Builtins *)

(** [float(v)] on a value that already is a float. *)
Definition py_float (v : float) : float := v.

(** [a > b] and [a >= b] on floats. *)
Definition gtb (a b : float) : bool := b <? a.
Definition geb (a b : float) : bool := b <=? a.

(** The loop of [min(xs)]: the running minimum is replaced by an item only
    when [item < minimum]. *)
Fixpoint min_from (best : float) (xs : list float) : float :=
  match xs with
  | [] => best
  | v :: rest => min_from (if v <? best then v else best) rest
  end.

(** The loop of [max(xs)]: replaced only when [item > maximum]. *)
Fixpoint max_from (best : float) (xs : list float) : float :=
  match xs with
  | [] => best
  | v :: rest => max_from (if gtb v best then v else best) rest
  end.

Definition py_min (xs : list float) : outcome float :=
  match xs with
  | [] => Raise ValueError
  | v :: rest => Return (min_from v rest)
  end.

Definition py_max (xs : list float) : outcome float :=
  match xs with
  | [] => Raise ValueError
  | v :: rest => Return (max_from v rest)
  end.

(** ** The body of the inner loop (lines 43-58) *)

Definition xs_of (poly : list point) : list float :=
  map (fun p => py_float (fst p)) poly.

Definition ys_of (poly : list point) : list float :=
  map (fun p => py_float (snd p)) poly.

Definition normalize (l : line) : outcome box :=
  let poly := fst l in
  let '(text, score) := snd l in
  let xs := xs_of poly in
  let ys := ys_of poly in
  x_min <- py_min xs ;;
  x_max <- py_max xs ;;
  y_min <- py_min ys ;;
  y_max <- py_max ys ;;
  Return {| x := x_min;
            y := y_min;
            width := x_max - x_min;
            height := y_max - y_min;
            text := text;
            confidence := py_float score |}.

(** ** The two loops (lines 38-58), threading the list [boxes] *)

(** [for line in page: ... boxes.append({...})] *)
Fixpoint loop_lines (lines : list line) (acc : list box) : outcome (list box) :=
  match lines with
  | [] => Return acc
  | l :: rest =>
      b <- normalize l ;;
      loop_lines rest (acc ++ [b])
  end.

(** The iterator that [for line in page] asks of [page]: [None] has none. *)
Definition py_iter (p : page) : outcome (list line) :=
  match p with
  | Some lines => Return lines
  | None => Raise TypeError
  end.

(** [for page in (result or []): ...] *)
Fixpoint loop_pages (pages : list page) (acc : list box) : outcome (list box) :=
  match pages with
  | [] => Return acc
  | p :: rest =>
      lines <- py_iter p ;;
      acc' <- loop_lines lines acc ;;
      loop_pages rest acc'
  end.

(** [result or []] *)
Definition or_empty (result : ocr_result) : list page :=
  match result with
  | None => []
  | Some [] => []
  | Some pages => pages
  end.

(** Lines 38-60: from the engine's result to the returned dictionary. *)
Definition result_to_boxes (result : ocr_result) : outcome (list box) :=
  loop_pages (or_empty result) [].

(** ** The handler *)

Definition bytes : Type := list Byte.byte.

Section Handler.

(** The pixel array handed to the engine. *)
Variable ndarray : Type.

(** [np.array(Image.open(BytesIO(content)).convert("RGB"))] *)
Variable decode_rgb : bytes -> outcome ndarray.

(** [ocr.ocr(img_np)] *)
Variable ocr : ndarray -> outcome ocr_result.

Definition ocr_image (content : bytes) : outcome response :=
  img_np <- decode_rgb content ;;
  result <- ocr img_np ;;
  boxes <- result_to_boxes result ;;
  Return {| boxes := boxes |}.

End Handler.

Arguments ocr_image {ndarray} decode_rgb ocr content.

(** ** What the framework sends

    [app = FastAPI()] registers no exception handler: an exception that
    leaves the route is answered with status 500 and the fixed text body.  A
    dictionary returned by the route is encoded as JSON and sent with status
    200.  JSON has neither NaN nor infinity: what is sent for a dictionary
    that holds one depends on the encoder of the installed framework (it
    may refuse the value or replace it), and is left open as
    [send_non_finite]. *)

Inductive http_body : Type :=
| JsonBody (r : response)
| PlainText (s : string).

Record http_response : Type := mkHttp { status : Z; body : http_body }.

(** Every number of the box is one that JSON can hold. *)
Definition box_compliant (b : box) : bool :=
  is_finite (x b) && is_finite (y b) && is_finite (width b)
  && is_finite (height b) && is_finite (confidence b).

Definition json_compliant (r : response) : bool :=
  forallb box_compliant (boxes r).

Definition respond (send_non_finite : response -> http_response)
    (o : outcome response) : http_response :=
  match o with
  | Return r =>
      if json_compliant r then {| status := 200; body := JsonBody r |}
      else send_non_finite r
  | Raise _ => {| status := 500; body := PlainText "Internal Server Error" |}
  end.

Definition post_ocr {ndarray : Type}
    (send_non_finite : response -> http_response)
    (decode_rgb : bytes -> outcome ndarray)
    (ocr : ndarray -> outcome ocr_result) (content : bytes) : http_response :=
  respond send_non_finite (ocr_image decode_rgb ocr content).

(** ** Predicates of the specification *)

(** [m] is a least element of [vs]: it occurs in [vs], no element is strictly
    below it, and when no element is a NaN it is below or equal to all. *)
Definition is_minimum (m : float) (vs : list float) : Prop :=
  In m vs /\
  (forall v, In v vs -> (v <? m) = false) /\
  ((forall v, In v vs -> is_nan v = false) ->
   forall v, In v vs -> (m <=? v) = true).

Definition is_maximum (m : float) (vs : list float) : Prop :=
  In m vs /\
  (forall v, In v vs -> gtb v m = false) /\
  ((forall v, In v vs -> is_nan v = false) ->
   forall v, In v vs -> geb m v = true).

(** [b] is the axis-aligned bounding box of the polygon of [l], with the
    text and the score of [l]. *)
Definition bounding_box_of (l : line) (b : box) : Prop :=
  exists x_max y_max,
    is_minimum (x b) (xs_of (fst l)) /\ is_maximum x_max (xs_of (fst l)) /\
    is_minimum (y b) (ys_of (fst l)) /\ is_maximum y_max (ys_of (fst l)) /\
    width b = x_max - x b /\ height b = y_max - y b /\
    text b = fst (snd l) /\ confidence b = snd (snd l).

(** The box appended for the detection [l] is [b]. *)
Definition normalizes_to (l : line) (b : box) : Prop :=
  normalize l = Return b.

(** The detections of a page; a page that is [None] has none. *)
Definition lines_of (p : page) : list line :=
  match p with
  | Some lines => lines
  | None => []
  end.

(** Every detection of the result, page after page. *)
Definition all_lines (result : ocr_result) : list line :=
  flat_map lines_of (or_empty result).

(** The page is a list. *)
Definition is_list (p : page) : Prop := p <> None.

(** [math.isfinite] on every element. *)
Definition all_finite (vs : list float) : Prop :=
  forall v, In v vs -> is_finite v = true.

(** All elements compare equal with [==]. *)
Definition all_equal (vs : list float) : Prop :=
  forall u v, In u vs -> In v vs -> (u =? v) = true.

(** The points [a], [b], [c] lie on one line: the cross product of [b - a]
    and [c - a] is zero. *)
Definition collinear3 (a b c : point) : bool :=
  ((fst b - fst a) * (snd c - snd a) =? (snd b - snd a) * (fst c - fst a)).

(** A polygon is collinear when every further point lies on the line of the
    first two. *)
Definition collinear (poly : list point) : bool :=
  match poly with
  | a :: b :: rest => forallb (collinear3 a b) rest
  | _ => true
  end.

(** The box has no width or no height. *)
Definition zero_width_or_height (b : box) : bool :=
  (width b =? 0) || (height b =? 0).

(** The response holds the boxes of the first page and nothing else. *)
Definition first_page_only (result : ocr_result) : Prop :=
  result_to_boxes result = result_to_boxes (option_map (firstn 1) result).

(** A 4xx status. *)
Definition client_error (st : Z) : Prop := (400 <= st < 500)%Z.

(** The polygon of the detection has no point. *)
Definition empty_polygon (l : line) : Prop := fst l = [].

(** [not math.isnan(v)]. *)
Definition not_nan (v : float) : bool := negb (is_nan v).

(** Two boxes with the same text and confidence whose numbers compare equal
    with [==]. *)
Definition same_box (b b' : box) : Prop :=
  (x b =? x b') = true /\ (y b =? y b') = true /\
  (width b =? width b') = true /\ (height b =? height b') = true /\
  text b = text b' /\ confidence b = confidence b'.

(** A finite number that is not below zero, as a coordinate inside an image
    is. *)
Definition plain (v : float) : Prop :=
  is_finite v = true /\ (0 <=? v) = true.

(** A detection with plain coordinates and a finite score. *)
Definition plain_line (l : line) : Prop :=
  (forall v, In v (xs_of (fst l)) -> plain v) /\
  (forall v, In v (ys_of (fst l)) -> plain v) /\
  is_finite (snd (snd l)) = true.

(** Every coordinate of the polygon is finite. *)
Definition finite_polygon (poly : list point) : Prop :=
  all_finite (xs_of poly) /\ all_finite (ys_of poly).

(** ** Properties of binary64 values, on their specification [spec_float] *)

Definition sf_sign_is (s : bool) (r : spec_float) : Prop :=
  match r with
  | S754_zero s' | S754_infinity s' | S754_finite s' _ _ => s' = s
  | S754_nan => False
  end.

Definition sf_finite (r : spec_float) : bool :=
  match r with
  | S754_zero _ | S754_finite _ _ _ => true
  | _ => false
  end.

Definition sf_is_nan (r : spec_float) : bool :=
  match r with
  | S754_nan => true
  | _ => false
  end.

Definition sf_is_zero (r : spec_float) : bool :=
  match r with
  | S754_zero _ => true
  | _ => false
  end.

(** ** Sample engines and data *)

(** A decoder that accepts what starts with the first byte of a PNG
    signature and rejects everything else, the empty upload included. *)
Definition stub_decode (content : bytes) : outcome unit :=
  match content with
  | Byte.x89 :: _ => Return tt
  | _ => Raise UnidentifiedImageError
  end.

(** The deterministic engine: a fixed result for every image. *)
Definition stub_ocr (fixed : ocr_result) (img : unit) : outcome ocr_result :=
  Return fixed.

(** An engine that always fails. *)
Definition failing_ocr (img : unit) : outcome ocr_result :=
  Raise (EngineError "inference failed").

(** An encoder that refuses NaN and infinities, as [json.dumps] does with
    [allow_nan=False]: its exception is answered like any other. *)
Definition refuse_non_finite (r : response) : http_response :=
  {| status := 500; body := PlainText "Internal Server Error" |}.

Definition png_upload : bytes := [Byte.x89; Byte.x50; Byte.x4e; Byte.x47].
Definition junk_upload : bytes := [Byte.x00; Byte.xff; Byte.x13].

Definition rect_10_20_50_60 : list point :=
  [(10, 20); (50, 20); (50, 60); (10, 60)].

Definition line_hello : line :=
  ([(0, 0); (100, 0); (100, 50); (0, 50)], ("HELLO"%string, 0.5)).
Definition box_hello : box := mkBox 0 0 100 50 "HELLO" 0.5.

Definition line_world : line :=
  ([(0, 60); (80, 60); (80, 90); (0, 90)], ("WORLD"%string, 0.75)).
Definition box_world : box := mkBox 0 60 80 30 "WORLD" 0.75.

(** A detection whose polygon is the single point (5, 5), with empty text. *)
Definition line_dot : line := ([(5, 5)], (EmptyString, 0.25)).
Definition box_dot : box := mkBox 5 5 0 0 EmptyString 0.25.

(** Three points on the diagonal. *)
Definition diagonal : list point := [(0, 0); (1, 1); (2, 2)].

(** Coordinates far outside any image, and scores outside [0, 1]. *)
Definition line_far : line :=
  ([(-5, 7000); (9000, 8000)], ("far"%string, 1.5)).
Definition box_far : box := mkBox (-5) 7000 9005 1000 "far" 1.5.

(** A quadrilateral whose first corner has a NaN for x and an infinity
    for y. *)
Definition line_nan : line :=
  ([(nan, infinity); (50, infinity); (50, infinity); (10, infinity)],
   ("nan"%string, 0.5)).

(** A detection whose polygon has no point. *)
Definition line_empty : line := ([], ("x"%string, 0.5)).

(** A first point with a NaN for x, and later points with a NaN for y. *)
Definition point_nan_x : point := (nan, 1).
Definition points_nan_y : list point := [(2, nan); (3, 4); (nan, nan)].

(** A page with a repeated detection, an empty text and a zero-area box. *)
Definition page_mixed : list line :=
  [line_hello; line_dot; line_dot; line_world].

Definition two_pages : ocr_result :=
  Some [Some [line_hello]; Some [line_world]].

(** What the engine returns for one image without text. *)
Definition no_text : ocr_result := Some [None].

Definition internal_server_error : http_response :=
  {| status := 500; body := PlainText "Internal Server Error" |}.

Definition ok_no_boxes : http_response :=
  {| status := 200; body := JsonBody {| boxes := [] |} |}.

(** * Facts about binary64 arithmetic

    The comparisons and the subtraction of [float] are specified by
    [SFltb], [SFleb], [SFeqb] and [SFsub] on [spec_float]; the facts below
    are proved there and carried back. *)

Module Binary64.

Section Spec.

Local Open Scope Z_scope.

(** *** The order *)

Lemma SFltb_irrefl a : SFltb a a = false.
Proof.
  unfold SFltb, SFcompare.
  destruct a as [[]|[]| |[] m e]; try reflexivity;
    rewrite Z.compare_refl; fold (Pos.compare m m);
    rewrite Pos.compare_refl; reflexivity.
Qed.

Lemma SFltb_trans a b c :
  SFltb a b = true -> SFltb b c = true -> SFltb a c = true.
Proof.
  unfold SFltb, SFcompare.
  destruct a as [[]|[]| |[] m1 e1], b as [[]|[]| |[] m2 e2],
           c as [[]|[]| |[] m3 e3];
    try reflexivity; try discriminate;
    fold (Pos.compare m1 m2); fold (Pos.compare m2 m3);
    fold (Pos.compare m1 m3);
    destruct (Z.compare_spec e1 e2), (Z.compare_spec e2 e3),
             (Z.compare_spec e1 e3);
    try reflexivity; try discriminate; try lia;
    destruct (Pos.compare_spec m1 m2), (Pos.compare_spec m2 m3),
             (Pos.compare_spec m1 m3);
    simpl; try reflexivity; try discriminate; try lia.
Qed.

Lemma SFeqb_not_ltb a b :
  SFeqb a b = true -> SFltb a b = false /\ SFltb b a = false.
Proof.
  unfold SFeqb, SFltb, SFcompare.
  destruct a as [[]|[]| |[] m1 e1], b as [[]|[]| |[] m2 e2];
    try (split; reflexivity); try discriminate;
    fold (Pos.compare m1 m2); fold (Pos.compare m2 m1);
    destruct (Z.compare_spec e1 e2), (Z.compare_spec e2 e1);
    try discriminate; try lia;
    destruct (Pos.compare_spec m1 m2), (Pos.compare_spec m2 m1);
    simpl; try (split; reflexivity); try discriminate; try lia.
Qed.

(** Without a NaN the order is total. *)
Lemma SFltb_false_leb a b :
  sf_is_nan a = false -> sf_is_nan b = false ->
  SFltb b a = false -> SFleb a b = true.
Proof.
  unfold SFleb, SFltb, SFcompare.
  destruct a as [[]|[]| |[] m1 e1], b as [[]|[]| |[] m2 e2];
    try reflexivity; try discriminate; intros _ _;
    fold (Pos.compare m1 m2); fold (Pos.compare m2 m1);
    destruct (Z.compare_spec e1 e2), (Z.compare_spec e2 e1);
    try reflexivity; try discriminate; try lia;
    destruct (Pos.compare_spec m1 m2), (Pos.compare_spec m2 m1);
    simpl; try reflexivity; try discriminate; try lia.
Qed.

Lemma SFeqb_refl_not_nan a : SFeqb a a = true -> sf_is_nan a = false.
Proof. destruct a; simpl; reflexivity || discriminate. Qed.

(** *** Rounding keeps the sign *)

Lemma iter_pos_invariant {A} (P : A -> Prop) (f : A -> A) :
  (forall a, P a -> P (f a)) -> forall p a, P a -> P (iter_pos f p a).
Proof.
  intros Hf; induction p as [p IH|p IH|]; intros a Ha; simpl; auto.
Qed.

Lemma shr_1_nonneg mrs : 0 <= shr_m mrs -> 0 <= shr_m (shr_1 mrs).
Proof.
  destruct mrs as [m r s]; simpl.
  destruct m as [|[p|p|]|[p|p|]]; simpl; lia.
Qed.

Lemma shr_nonneg mrs e n :
  0 <= shr_m mrs -> 0 <= shr_m (fst (shr mrs e n)).
Proof.
  intros H; destruct n; simpl; auto.
  apply (iter_pos_invariant (fun r => 0 <= shr_m r)); auto using shr_1_nonneg.
Qed.

Lemma shr_record_of_loc_m m l : shr_m (shr_record_of_loc m l) = m.
Proof. destruct l as [|[]]; reflexivity. Qed.

Lemma shr_fexp_nonneg m e l :
  0 <= m -> 0 <= shr_m (fst (shr_fexp prec emax m e l)).
Proof.
  intros H; unfold shr_fexp; apply shr_nonneg.
  now rewrite shr_record_of_loc_m.
Qed.

Lemma round_nearest_even_nonneg m l :
  0 <= m -> 0 <= round_nearest_even m l.
Proof.
  intros H; destruct l as [|[]]; simpl; try lia.
  destruct (Z.even m); lia.
Qed.

Lemma binary_round_aux_sign s m e l :
  0 <= m -> sf_sign_is s (binary_round_aux prec emax s m e l).
Proof.
  intros H; unfold binary_round_aux.
  pose proof (shr_fexp_nonneg m e l H) as H1.
  destruct (shr_fexp prec emax m e l) as [mrs' e']; simpl in H1.
  pose proof (shr_fexp_nonneg _ e' loc_Exact
                (round_nearest_even_nonneg _ (loc_of_shr_record mrs') H1))
    as H2.
  destruct (shr_fexp prec emax _ e' loc_Exact) as [mrs'' e'']; simpl in H2.
  destruct (shr_m mrs'') as [|p|p]; try lia.
  - reflexivity.
  - destruct (_ <=? _); reflexivity.
Qed.

Lemma binary_round_sign s m e : sf_sign_is s (binary_round prec emax s m e).
Proof.
  unfold binary_round.
  destruct (shl_align m e _) as [mz ez].
  apply binary_round_aux_sign; lia.
Qed.

Lemma binary_normalize_nonneg m e :
  0 <= m -> sf_sign_is false (binary_normalize prec emax m e false).
Proof.
  intros H; destruct m as [|p|p]; cbn [binary_normalize].
  - reflexivity.
  - apply binary_round_sign.
  - lia.
Qed.

(** *** Mantissas of valid numbers *)

Lemma digits2_pos_size m : digits2_pos m = Pos.size m.
Proof. induction m; simpl; congruence. Qed.

Lemma pos_iter_xO_double m d : 2 * Zpos m <= Zpos (Pos.iter xO m d).
Proof.
  induction d using Pos.peano_ind.
  - simpl. lia.
  - rewrite Pos.iter_succ. lia.
Qed.

Lemma shl_align_same m e : fst (shl_align m e e) = m.
Proof. unfold shl_align. now rewrite Z.sub_diag. Qed.

Lemma shl_align_below m e e' :
  e' < e -> 2 * Zpos m <= Zpos (fst (shl_align m e e')).
Proof.
  intros H; unfold shl_align.
  destruct (e' - e) eqn:E; try lia.
  simpl. apply pos_iter_xO_double.
Qed.

(** A valid mantissa has at most 53 bits, and exactly 53 above the least
    exponent. *)
Lemma bounded_mantissa m e :
  bounded prec emax m e = true ->
  Zpos m < 2 ^ 53 /\ -1074 <= e /\ (-1074 < e -> 2 ^ 52 <= Zpos m).
Proof.
  unfold bounded, canonical_mantissa, fexp, SpecFloat.emin, prec, emax.
  rewrite andb_true_iff, Z.eqb_eq, Z.leb_le, digits2_pos_size.
  intros [Hc _].
  pose proof (Pos.size_gt m) as Hgt.
  pose proof (Pos.size_le m) as Hle.
  assert (Hd : Z.pos (Pos.size m) <= 53) by lia.
  repeat split; try lia.
  - apply Z.lt_le_trans with (2 ^ Zpos (Pos.size m)).
    + rewrite <- Pos2Z.inj_pow. lia.
    + apply Z.pow_le_mono_r; lia.
  - intros He. assert (Hs : Pos.size m = 53%positive) by lia.
    rewrite Hs in Hle.
    assert (2 ^ 53 <= 2 * Zpos m).
    { change (2 ^ 53) with (Zpos (2 ^ 53)). lia. }
    lia.
Qed.

(** *** Subtraction *)

Lemma aligned_difference_nonneg sx mx ex sy my ey :
  bounded prec emax mx ex = true ->
  bounded prec emax my ey = true ->
  SFltb (S754_finite sx mx ex) (S754_finite sy my ey) = false ->
  0 <= cond_Zopp sx (Zpos (fst (shl_align mx ex (Z.min ex ey))))
       - cond_Zopp sy (Zpos (fst (shl_align my ey (Z.min ex ey)))).
Proof.
  intros Bx By.
  destruct (bounded_mantissa _ _ Bx) as (Hx1 & Hx2 & Hx3).
  destruct (bounded_mantissa _ _ By) as (Hy1 & Hy2 & Hy3).
  unfold SFltb, SFcompare; fold (Pos.compare mx my).
  destruct sx, sy; simpl cond_Zopp; try discriminate; try lia;
    destruct (Z.compare_spec ex ey) as [E|E|E]; try discriminate.
  - subst ey. rewrite Z.min_id, !shl_align_same.
    destruct (Pos.compare_spec mx my); cbn [CompOpp]; try discriminate; lia.
  - rewrite Z.min_l by lia. rewrite shl_align_same.
    pose proof (shl_align_below my ey ex E). lia.
  - subst ey. rewrite Z.min_id, !shl_align_same.
    destruct (Pos.compare_spec mx my); cbn [CompOpp]; try discriminate; lia.
  - rewrite Z.min_r by lia. rewrite shl_align_same.
    pose proof (shl_align_below mx ex ey E). lia.
Qed.

(** [a - b] for finite [a >= b] is a zero or has the sign [+]. *)
Lemma SFsub_sign a b :
  valid_binary a = true -> valid_binary b = true ->
  sf_finite a = true -> sf_finite b = true ->
  SFltb a b = false ->
  sf_sign_is false (SF64sub a b) \/ SF64sub a b = S754_zero true.
Proof.
  intros Va Vb Fa Fb.
  destruct a as [sa|sa| |sa ma ea], b as [sb|sb| |sb mb eb];
    try discriminate.
  - intros _. destruct sa, sb; simpl; auto.
  - unfold SFltb; simpl. destruct sb; try discriminate.
    intros _. left; reflexivity.
  - unfold SFltb; simpl. destruct sa; try discriminate.
    intros _. left; reflexivity.
  - intros H. left. unfold SF64sub, SFsub.
    apply binary_normalize_nonneg.
    now apply aligned_difference_nonneg.
Qed.

Lemma SFsub_not_negative a b :
  valid_binary a = true -> valid_binary b = true ->
  SFltb a b = false -> SFltb (SF64sub a b) (S754_zero false) = false.
Proof.
  intros Va Vb H.
  destruct (sf_finite a) eqn:Fa, (sf_finite b) eqn:Fb.
  - destruct (SFsub_sign a b Va Vb Fa Fb H) as [S|S].
    + destruct (SF64sub a b) as [s|s| |s m e]; simpl in S; subst;
        reflexivity || contradiction.
    + rewrite S; reflexivity.
  - destruct a as [sa|sa| |sa ma ea], b as [[]|[]| |sb mb eb];
      try discriminate; try reflexivity;
      destruct sa; try reflexivity; discriminate.
  - destruct a as [[]|[]| |sa ma ea], b as [sb|sb| |sb mb eb];
      try discriminate; try reflexivity;
      destruct sb; try reflexivity; discriminate.
  - destruct a as [[]|[]| |sa ma ea], b as [[]|[]| |sb mb eb];
      try discriminate; reflexivity.
Qed.

Lemma SFsub_nonneg a b :
  valid_binary a = true -> valid_binary b = true ->
  sf_finite a = true -> sf_finite b = true ->
  SFltb a b = false -> SFleb (S754_zero false) (SF64sub a b) = true.
Proof.
  intros Va Vb Fa Fb H.
  destruct (SFsub_sign a b Va Vb Fa Fb H) as [S|S].
  - destruct (SF64sub a b) as [s|s| |s m e]; simpl in S; subst;
      reflexivity || contradiction.
  - rewrite S; reflexivity.
Qed.

Lemma SFsub_diag a : sf_finite a = true -> SF64sub a a = S754_zero false.
Proof.
  destruct a as [[]|[]| |s m e]; try discriminate; try reflexivity.
  intros _. unfold SF64sub, SFsub. now rewrite Z.sub_diag.
Qed.

End Spec.

(** *** The same facts on [float] *)

Lemma Prim2SF_infinity : Prim2SF infinity = S754_infinity false.
Proof. reflexivity. Qed.

Lemma Prim2SF_zero : Prim2SF 0 = S754_zero false.
Proof. reflexivity. Qed.

Lemma is_nan_sf a : is_nan a = false -> sf_is_nan (Prim2SF a) = false.
Proof.
  unfold is_nan. rewrite negb_false_iff, eqb_spec.
  apply SFeqb_refl_not_nan.
Qed.

Lemma is_finite_sf a : is_finite a = true -> sf_finite (Prim2SF a) = true.
Proof.
  unfold is_finite, is_nan, is_infinity.
  rewrite !eqb_spec, abs_spec, Prim2SF_infinity.
  destruct (Prim2SF a) as [s|s| |s m e]; try reflexivity.
  - rewrite orb_true_r; discriminate.
  - discriminate.
Qed.

Lemma is_finite_not_nan a : is_finite a = true -> is_nan a = false.
Proof.
  unfold is_finite. rewrite negb_true_iff, orb_false_iff. now intros [H _].
Qed.

Lemma ltb_irrefl a : (a <? a) = false.
Proof. rewrite ltb_spec. apply SFltb_irrefl. Qed.

Lemma ltb_trans a b c : (a <? b) = true -> (b <? c) = true -> (a <? c) = true.
Proof. rewrite !ltb_spec. apply SFltb_trans. Qed.

Lemma eqb_not_ltb a b :
  (a =? b) = true -> (a <? b) = false /\ (b <? a) = false.
Proof. rewrite eqb_spec, !ltb_spec. apply SFeqb_not_ltb. Qed.

Lemma ltb_false_leb a b :
  is_nan a = false -> is_nan b = false -> (b <? a) = false -> (a <=? b) = true.
Proof.
  intros Na Nb. rewrite ltb_spec, leb_spec.
  apply SFltb_false_leb; now apply is_nan_sf.
Qed.

(** A difference [a - b] with [a >= b] is never below zero, whatever the
    operands (it can be a NaN). *)
Lemma sub_not_negative a b : (a <? b) = false -> (a - b <? 0) = false.
Proof.
  rewrite !ltb_spec, sub_spec, Prim2SF_zero.
  apply SFsub_not_negative; apply Prim2SF_valid.
Qed.

Lemma sub_nonneg a b :
  is_finite a = true -> is_finite b = true ->
  (a <? b) = false -> (0 <=? a - b) = true.
Proof.
  intros Fa Fb. rewrite ltb_spec, leb_spec, sub_spec, Prim2SF_zero.
  apply SFsub_nonneg; auto using Prim2SF_valid, is_finite_sf.
Qed.

Lemma sub_diag a : is_finite a = true -> a - a = 0.
Proof.
  intros Fa. apply Prim2SF_inj. rewrite sub_spec, Prim2SF_zero.
  apply SFsub_diag, is_finite_sf, Fa.
Qed.

End Binary64.

(** * The builtins [min] and [max] *)

Section MinMax.

Import Binary64.

Lemma min_from_In best vs : In (min_from best vs) (best :: vs).
Proof.
  revert best; induction vs as [|a vs IH]; intros best; simpl.
  - now left.
  - destruct (IH (if a <? best then a else best)) as [H|H]; auto.
    destruct (a <? best); auto.
Qed.

Lemma max_from_In best vs : In (max_from best vs) (best :: vs).
Proof.
  revert best; induction vs as [|a vs IH]; intros best; simpl.
  - now left.
  - destruct (IH (if gtb a best then a else best)) as [H|H]; auto.
    destruct (gtb a best); auto.
Qed.

(** The running minimum only moves down. *)
Lemma min_from_below best vs :
  min_from best vs = best \/ (min_from best vs <? best) = true.
Proof.
  revert best; induction vs as [|a vs IH]; intros best; simpl; auto.
  destruct (a <? best) eqn:E.
  - destruct (IH a) as [H|H]; rewrite H || right; eauto using ltb_trans.
  - apply IH.
Qed.

(** The running maximum only moves up. *)
Lemma max_from_above best vs :
  max_from best vs = best \/ (best <? max_from best vs) = true.
Proof.
  revert best; induction vs as [|a vs IH]; intros best; simpl; auto.
  unfold gtb. destruct (best <? a) eqn:E.
  - destruct (IH a) as [H|H]; rewrite H || right; eauto using ltb_trans.
  - apply IH.
Qed.

Lemma min_from_lower best vs v :
  In v (best :: vs) -> (v <? min_from best vs) = false.
Proof.
  revert best v; induction vs as [|a vs IH]; intros best v Hv.
  - destruct Hv as [<-|[]]. apply ltb_irrefl.
  - cbn [min_from].
    assert (Hrest : forall u, In u vs ->
              (u <? min_from (if a <? best then a else best) vs) = false)
      by (intros u Hu; apply IH; now right).
    destruct (a <? best) eqn:E.
    + pose proof (IH a a (or_introl eq_refl)) as Ha.
      destruct Hv as [<-|[<-|Hv]]; auto.
      destruct (best <? min_from a vs) eqn:F; auto.
      now rewrite (ltb_trans _ _ _ E F) in Ha.
    + pose proof (IH best best (or_introl eq_refl)) as Hb.
      destruct Hv as [<-|[<-|Hv]]; auto.
      destruct (a <? min_from best vs) eqn:F; auto.
      destruct (min_from_below best vs) as [H|H].
      * rewrite H in F. congruence.
      * rewrite (ltb_trans _ _ _ F H) in E. discriminate.
Qed.

Lemma max_from_upper best vs v :
  In v (best :: vs) -> (max_from best vs <? v) = false.
Proof.
  revert best v; induction vs as [|a vs IH]; intros best v Hv.
  - destruct Hv as [<-|[]]. apply ltb_irrefl.
  - cbn [max_from]. unfold gtb.
    assert (Hrest : forall u, In u vs ->
              (max_from (if best <? a then a else best) vs <? u) = false)
      by (intros u Hu; apply IH; now right).
    destruct (best <? a) eqn:E.
    + pose proof (IH a a (or_introl eq_refl)) as Ha.
      destruct Hv as [<-|[<-|Hv]]; auto.
      destruct (max_from a vs <? best) eqn:F; auto.
      now rewrite (ltb_trans _ _ _ F E) in Ha.
    + pose proof (IH best best (or_introl eq_refl)) as Hb.
      destruct Hv as [<-|[<-|Hv]]; auto.
      destruct (max_from best vs <? a) eqn:F; auto.
      destruct (max_from_above best vs) as [H|H].
      * rewrite H in F. congruence.
      * rewrite (ltb_trans _ _ _ H F) in E. discriminate.
Qed.

Lemma py_min_is_minimum vs m : py_min vs = Return m -> is_minimum m vs.
Proof.
  destruct vs as [|v0 vs]; [discriminate|].
  intros [= <-]. repeat split.
  - apply min_from_In.
  - intros v Hv. now apply min_from_lower.
  - intros Hnan v Hv. apply ltb_false_leb; auto.
    + apply Hnan, min_from_In.
    + now apply min_from_lower.
Qed.

Lemma py_max_is_maximum vs m : py_max vs = Return m -> is_maximum m vs.
Proof.
  destruct vs as [|v0 vs]; [discriminate|].
  intros [= <-]. repeat split.
  - apply max_from_In.
  - intros v Hv. now apply max_from_upper.
  - intros Hnan v Hv. unfold geb. apply ltb_false_leb; auto.
    + apply Hnan, max_from_In.
    + now apply max_from_upper.
Qed.

(** On elements that all compare equal, both loops keep the first one. *)
Lemma min_from_all_equal best vs :
  (forall v, In v vs -> (v =? best) = true) -> min_from best vs = best.
Proof.
  induction vs as [|a vs IH]; intros H; simpl; auto.
  destruct (eqb_not_ltb a best) as [-> _]; auto using in_eq, in_cons.
Qed.

Lemma max_from_all_equal best vs :
  (forall v, In v vs -> (v =? best) = true) -> max_from best vs = best.
Proof.
  induction vs as [|a vs IH]; intros H; simpl; auto.
  unfold gtb.
  destruct (eqb_not_ltb a best) as [_ ->]; auto using in_eq, in_cons.
Qed.

End MinMax.

(** * One detection *)

Lemma xs_of_cons p poly : xs_of (p :: poly) = fst p :: xs_of poly.
Proof. reflexivity. Qed.

Lemma ys_of_cons p poly : ys_of (p :: poly) = snd p :: ys_of poly.
Proof. reflexivity. Qed.

(** [normalize] written out on a polygon with a first point. *)
Lemma normalize_cons p poly t s :
  normalize (p :: poly, (t, s)) =
  Return {| x := min_from (fst p) (xs_of poly);
            y := min_from (snd p) (ys_of poly);
            width := max_from (fst p) (xs_of poly)
                     - min_from (fst p) (xs_of poly);
            height := max_from (snd p) (ys_of poly)
                      - min_from (snd p) (ys_of poly);
            text := t;
            confidence := s |}.
Proof. reflexivity. Qed.

(** The only failure: [min()] of an empty polygon. *)
Lemma normalize_nil t s :
  normalize ([], (t, s)) = Raise ValueError.
Proof. reflexivity. Qed.

Lemma normalize_total l : fst l <> [] -> exists b, normalize l = Return b.
Proof.
  destruct l as [[|p poly] [t s]]; cbn [fst]; [congruence|].
  intros _. rewrite normalize_cons. eauto.
Qed.

Lemma normalize_returns_nonempty l b : normalize l = Return b -> fst l <> [].
Proof.
  destruct l as [[|p poly] [t s]]; [discriminate|]. discriminate.
Qed.

Lemma normalize_bounding_box l b :
  normalize l = Return b -> bounding_box_of l b.
Proof.
  destruct l as [[|p poly] [t s]]; [discriminate|].
  rewrite normalize_cons. intros [= <-].
  exists (max_from (fst p) (xs_of poly)), (max_from (snd p) (ys_of poly)).
  cbn [x y width height text confidence fst snd].
  repeat match goal with |- _ /\ _ => split end;
    try reflexivity;
    (apply py_min_is_minimum || apply py_max_is_maximum); reflexivity.
Qed.

(** * The loops *)

Lemma loop_lines_app ls acc bs :
  Forall2 normalizes_to ls bs -> loop_lines ls acc = Return (acc ++ bs).
Proof.
  intros H; revert acc; induction H as [|l b ls bs Hl _ IH]; intros acc; simpl.
  - now rewrite app_nil_r.
  - rewrite Hl; simpl. rewrite IH, <- app_assoc. reflexivity.
Qed.

Lemma loop_lines_inv ls acc out :
  loop_lines ls acc = Return out ->
  exists bs, out = acc ++ bs /\ Forall2 normalizes_to ls bs.
Proof.
  revert acc; induction ls as [|l ls IH]; intros acc; simpl.
  - intros [= <-]. exists []. now rewrite app_nil_r.
  - destruct (normalize l) as [b|e] eqn:Hl; simpl; [|discriminate].
    intros H. destruct (IH _ H) as (bs & -> & Hbs).
    exists (b :: bs). rewrite <- app_assoc. split; [reflexivity|].
    now constructor.
Qed.

Lemma flat_map_lines_of_lists (pages : list (list line)) :
  flat_map lines_of (map Some pages) = concat pages.
Proof. induction pages as [|p pages IH]; simpl; congruence. Qed.

Lemma Forall_is_list_lists (pages : list (list line)) :
  Forall is_list (map Some pages).
Proof. induction pages; constructor; auto. discriminate. Qed.

Lemma loop_pages_app pages acc bs :
  Forall is_list pages ->
  Forall2 normalizes_to (flat_map lines_of pages) bs ->
  loop_pages pages acc = Return (acc ++ bs).
Proof.
  intros L; revert acc bs; induction L as [|p pages Hp _ IH]; intros acc bs;
    simpl.
  - intros H; inversion H; subst. now rewrite app_nil_r.
  - destruct p as [ls|]; [|now destruct Hp]. simpl.
    intros H. apply Forall2_app_inv_l in H as (bs1 & bs2 & H1 & H2 & ->).
    rewrite (loop_lines_app _ _ _ H1); simpl.
    rewrite (IH _ _ H2), <- app_assoc. reflexivity.
Qed.

Lemma loop_pages_inv pages acc out :
  loop_pages pages acc = Return out ->
  Forall is_list pages /\
  exists bs, out = acc ++ bs /\
             Forall2 normalizes_to (flat_map lines_of pages) bs.
Proof.
  revert acc; induction pages as [|p pages IH]; intros acc; simpl.
  - intros [= <-]. split; [constructor|]. exists []. now rewrite app_nil_r.
  - destruct p as [ls|]; simpl; [|discriminate].
    destruct (loop_lines ls acc) as [acc'|e] eqn:Hp; simpl; [|discriminate].
    intros H. apply loop_lines_inv in Hp as (bs1 & -> & H1).
    destruct (IH _ H) as (L & bs2 & -> & H2).
    split; [constructor; [discriminate | assumption]|].
    exists (bs1 ++ bs2). rewrite <- app_assoc. split; [reflexivity|].
    now apply Forall2_app.
Qed.

(** The handler returns [bs] exactly when every page is a list and [bs]
    lists, in order, the box of every detection of every page. *)
Lemma result_to_boxes_iff result bs :
  result_to_boxes result = Return bs <->
  Forall is_list (or_empty result) /\
  Forall2 normalizes_to (all_lines result) bs.
Proof.
  unfold result_to_boxes, all_lines; split.
  - intros H. apply loop_pages_inv in H as (L & bs' & -> & H). now split.
  - intros [L H]. now rewrite (loop_pages_app _ [] _ L H).
Qed.

Lemma result_to_boxes_inv result bs :
  result_to_boxes result = Return bs ->
  Forall2 normalizes_to (all_lines result) bs.
Proof. intros H. now apply result_to_boxes_iff in H. Qed.

Lemma or_empty_Some pages : or_empty (Some pages) = pages.
Proof. now destruct pages. Qed.

Lemma all_lines_lists (pages : list (list line)) :
  all_lines (Some (map Some pages)) = concat pages.
Proof.
  unfold all_lines. now rewrite or_empty_Some, flat_map_lines_of_lists.
Qed.

(** On pages that are lists, the boxes of all their detections. *)
Lemma result_to_boxes_lists (pages : list (list line)) bs :
  Forall2 normalizes_to (concat pages) bs ->
  result_to_boxes (Some (map Some pages)) = Return bs.
Proof.
  intros H. apply result_to_boxes_iff. rewrite or_empty_Some. split.
  - apply Forall_is_list_lists.
  - now rewrite all_lines_lists.
Qed.

(** Every detection with a point has its box. *)
Lemma Forall2_normalizes_total ls :
  Forall (fun l => fst l <> []) ls -> exists bs, Forall2 normalizes_to ls bs.
Proof.
  induction 1 as [|l ls Hl _ [bs IH]].
  - exists []. constructor.
  - destruct (normalize_total l Hl) as [b Hb].
    exists (b :: bs). now constructor.
Qed.

Lemma Forall2_nth_error_l {A B} (R : A -> B -> Prop) la lb i a :
  Forall2 R la lb -> nth_error la i = Some a ->
  exists b, nth_error lb i = Some b /\ R a b.
Proof.
  intros H; revert i; induction H as [|a' b' la lb Hab _ IH]; intros [|i];
    simpl; try discriminate.
  - intros [= <-]. eauto.
  - apply IH.
Qed.

Lemma Forall2_nth_error_r {A B} (R : A -> B -> Prop) la lb i b :
  Forall2 R la lb -> nth_error lb i = Some b ->
  exists a, nth_error la i = Some a /\ R a b.
Proof.
  intros H; revert i; induction H as [|a' b' la lb Hab _ IH]; intros [|i];
    simpl; try discriminate.
  - intros [= <-]. eauto.
  - apply IH.
Qed.

(** * The handler's contract *)

Lemma ocr_image_unfold {A} (decode : bytes -> outcome A) ocr content img
    result :
  decode content = Return img -> ocr img = Return result ->
  ocr_image decode ocr content =
  bs <- result_to_boxes result ;; Return {| boxes := bs |}.
Proof. intros Hd Ho. unfold ocr_image. rewrite Hd; simpl. now rewrite Ho. Qed.

(** A returned response comes from a decoded image and an engine result. *)
Lemma ocr_image_inv {A} (decode : bytes -> outcome A) ocr content r :
  ocr_image decode ocr content = Return r ->
  exists img result,
    decode content = Return img /\ ocr img = Return result /\
    result_to_boxes result = Return (boxes r).
Proof.
  unfold ocr_image.
  destruct (decode content) as [img|e]; simpl; [|discriminate].
  destruct (ocr img) as [result|e] eqn:Ho; simpl; [|discriminate].
  destruct (result_to_boxes result) as [bs|e] eqn:Hb; simpl; [|discriminate].
  intros [= <-]. exists img, result. auto.
Qed.

(** C1. For every detection the handler processes, the box at the
    detection's position is its bounding box: [x] and [y] are the minimum of
    the polygon's x and y coordinates, [width] and [height] are the maximum
    minus the minimum, text and confidence are the detection's own.  The
    rectangle (10,20), (50,20), (50,60), (10,60) yields x 10, y 20, width
    40, height 40. *)
Theorem box_is_bounding_box :
  (forall result bs,
     result_to_boxes result = Return bs ->
     forall i l, nth_error (all_lines result) i = Some l ->
       exists b, nth_error bs i = Some b /\ bounding_box_of l b) /\
  (forall t s,
     result_to_boxes (Some [Some [(rect_10_20_50_60, (t, s))]]) =
     Return [mkBox 10 20 40 40 t s]).
Proof.
  split.
  - intros result bs H i l Hl.
    apply result_to_boxes_inv in H.
    destruct (Forall2_nth_error_l _ _ _ _ _ H Hl) as (b & Hb & Hn).
    exists b. split; [assumption|]. now apply normalize_bounding_box.
  - reflexivity.
Qed.

Lemma box_is_bounding_box_witness :
  exists b, nth_error [box_hello; box_world] 1 = Some b /\
            bounding_box_of line_world b.
Proof.
  exact (proj1 box_is_bounding_box two_pages [box_hello; box_world]
           eq_refl 1%nat line_world eq_refl).
Defined.

(** A decode failure is answered with status 500, which is no client error,
    and with the very response an engine failure gets. *)
Lemma decode_failure_is_server_error :
  stub_decode junk_upload = Raise UnidentifiedImageError /\
  status (post_ocr refuse_non_finite stub_decode (stub_ocr None) junk_upload)
  = 500%Z /\
  ~ client_error
      (status
         (post_ocr refuse_non_finite stub_decode (stub_ocr None) junk_upload))
  /\
  post_ocr refuse_non_finite stub_decode (stub_ocr None) junk_upload =
  post_ocr refuse_non_finite stub_decode failing_ocr png_upload.
Proof.
  repeat split; try reflexivity.
  unfold client_error; simpl. lia.
Qed.

(** C2, amended. The handler catches nothing: an exception of the decoder,
    of the engine or of the normalization leaves it unchanged, and every
    such failure, whatever its cause, is answered with the same status 500
    and fixed text, which carries no boxes. *)
Theorem failures_propagate {A} nf (decode : bytes -> outcome A) ocr content :
  (forall e, decode content = Raise e ->
     ocr_image decode ocr content = Raise e) /\
  (forall img e, decode content = Return img -> ocr img = Raise e ->
     ocr_image decode ocr content = Raise e) /\
  (forall img result e,
     decode content = Return img -> ocr img = Return result ->
     result_to_boxes result = Raise e ->
     ocr_image decode ocr content = Raise e) /\
  (forall e, ocr_image decode ocr content = Raise e ->
     post_ocr nf decode ocr content = internal_server_error).
Proof.
  unfold post_ocr, ocr_image. repeat split.
  - intros e ->. reflexivity.
  - intros img e -> H. simpl. now rewrite H.
  - intros img result e -> Ho Hb. simpl. rewrite Ho; simpl. now rewrite Hb.
  - intros e ->. reflexivity.
Qed.

Lemma failures_propagate_witness :
  ocr_image stub_decode failing_ocr junk_upload = Raise UnidentifiedImageError.
Proof.
  exact (proj1 (failures_propagate refuse_non_finite stub_decode failing_ocr
                  junk_upload)
           UnidentifiedImageError eq_refl).
Defined.

(** With two pages the response is not the one of the first page alone. *)
Lemma second_page_is_kept : ~ first_page_only two_pages.
Proof.
  unfold first_page_only, two_pages. cbv. intros H. discriminate H.
Qed.

(** C3, amended. For an engine result of any number of pages the response
    holds the box of every detection of every page, in page order; no page
    is left out. *)
Theorem every_page_contributes (pages : list (list line)) :
  Forall (fun l => fst l <> []) (concat pages) ->
  exists bs,
    result_to_boxes (Some (map Some pages)) = Return bs /\
    Forall2 normalizes_to (concat pages) bs /\
    length bs = length (concat pages).
Proof.
  intros H. destruct (Forall2_normalizes_total _ H) as [bs Hbs].
  exists bs. repeat split.
  - now apply result_to_boxes_lists.
  - assumption.
  - symmetry. eapply Forall2_length; eassumption.
Qed.

Lemma every_page_contributes_witness :
  exists bs,
    result_to_boxes (Some [Some [line_hello]; Some [line_world]])
    = Return bs /\
    Forall2 normalizes_to [line_hello; line_world] bs /\
    length bs = 2%nat.
Proof.
  apply (every_page_contributes [[line_hello]; [line_world]]).
  repeat constructor; discriminate.
Defined.

(** C4. The [N] detections of one page yield exactly [N] boxes, the box at
    each position being the one of the detection at that position: nothing
    is dropped, merged or reordered. *)
Theorem boxes_follow_detections (pg : list line) :
  Forall (fun l => fst l <> []) pg ->
  exists bs,
    result_to_boxes (Some [Some pg]) = Return bs /\
    length bs = length pg /\
    forall i l, nth_error pg i = Some l ->
      exists b, nth_error bs i = Some b /\ normalize l = Return b.
Proof.
  intros H. destruct (Forall2_normalizes_total _ H) as [bs Hbs].
  exists bs. repeat split.
  - apply (result_to_boxes_lists [pg]). simpl. now rewrite app_nil_r.
  - symmetry. eapply Forall2_length; eassumption.
  - intros i l Hl. exact (Forall2_nth_error_l _ _ _ _ _ Hbs Hl).
Qed.

Lemma boxes_follow_detections_witness :
  exists bs,
    result_to_boxes (Some [Some page_mixed]) = Return bs /\
    length bs = length page_mixed /\
    forall i l, nth_error page_mixed i = Some l ->
      exists b, nth_error bs i = Some b /\ normalize l = Return b.
Proof.
  apply (boxes_follow_detections page_mixed).
  repeat constructor; discriminate.
Defined.

(** The boxes of the mixed page: the repeated, empty-text, zero-area box is
    there twice. *)
Example page_mixed_boxes :
  result_to_boxes (Some [Some page_mixed]) =
  Return [box_hello; box_dot; box_dot; box_world].
Proof. reflexivity. Qed.

(** When the engine's result is [None], or a list of pages that are all
    empty lists, the handler returns an empty list of boxes and the response
    is 200 with [{"boxes": []}]. *)
Lemma empty_lists_are_success {A} nf (decode : bytes -> outcome A) ocr
    content img result :
  decode content = Return img ->
  ocr img = Return result ->
  Forall is_list (or_empty result) ->
  all_lines result = [] ->
  ocr_image decode ocr content = Return {| boxes := [] |} /\
  post_ocr nf decode ocr content = ok_no_boxes.
Proof.
  intros Hd Ho Hl He.
  assert (Hb : result_to_boxes result = Return []).
  { apply result_to_boxes_iff. rewrite He. split; [assumption|constructor]. }
  unfold post_ocr. rewrite (ocr_image_unfold _ _ _ _ _ Hd Ho), Hb.
  split; reflexivity.
Qed.

(** C5. The defect: for an image without text the engine's result is
    [[None]]; the guard [result or []] does not cover a page that is [None],
    [for line in page] raises [TypeError], and the response is 500 where
    the specification has 200 with [{"boxes": []}].  The same happens
    whenever the first page is [None]. *)
Theorem no_text_is_an_error {A} nf (decode : bytes -> outcome A) ocr
    content img rest :
  decode content = Return img ->
  ocr img = Return (Some (None :: rest)) ->
  ocr_image decode ocr content = Raise TypeError /\
  post_ocr nf decode ocr content = internal_server_error.
Proof.
  intros Hd Ho. unfold post_ocr.
  rewrite (ocr_image_unfold _ _ _ _ _ Hd Ho).
  split; reflexivity.
Qed.

Lemma no_text_is_an_error_witness :
  ocr_image stub_decode (stub_ocr no_text) png_upload = Raise TypeError /\
  post_ocr refuse_non_finite stub_decode (stub_ocr no_text) png_upload =
  internal_server_error.
Proof.
  exact (no_text_is_an_error refuse_non_finite stub_decode (stub_ocr no_text)
           png_upload tt [] eq_refl eq_refl).
Defined.

(** With a NaN as the first x, [min] and [max] both keep it and the width is
    NaN; with all y at infinity the height is inf - inf, a NaN as well; and
    [>= 0] is false of a NaN. *)
Lemma nan_extent_is_not_ge_zero :
  exists b,
    result_to_boxes (Some [Some [line_nan]]) = Return [b] /\
    geb (width b) 0 = false /\ geb (height b) 0 = false.
Proof.
  exists (mkBox nan infinity nan nan "nan" 0.5).
  repeat split; reflexivity.
Qed.

(** The extent of a box: the difference of two coordinates of the polygon,
    the first not below the second. *)
Lemma normalize_extent l b :
  normalize l = Return b ->
  (exists hi, In hi (xs_of (fst l)) /\ In (x b) (xs_of (fst l)) /\
              (hi <? x b) = false /\ width b = hi - x b) /\
  (exists hi, In hi (ys_of (fst l)) /\ In (y b) (ys_of (fst l)) /\
              (hi <? y b) = false /\ height b = hi - y b).
Proof.
  intros H. apply normalize_bounding_box in H.
  destruct H as (xm & ym & (Ix & Lx & _) & (Imx & _) & (Iy & Ly & _)
                    & (Imy & _) & Hw & Hh & _).
  split; [exists xm | exists ym]; auto.
Qed.

(** C6, amended. Every box the handler emits has a width and a height that
    are never below zero, and that are [>= 0] whenever the coordinates of
    its polygon are finite (with a NaN or an infinity among them they can be
    NaN); each detection has its box, none is filtered. *)
Theorem extent_never_negative result bs :
  result_to_boxes result = Return bs ->
  length bs = length (all_lines result) /\
  forall i b, nth_error bs i = Some b ->
    (width b <? 0) = false /\ (height b <? 0) = false /\
    exists l,
      nth_error (all_lines result) i = Some l /\ normalize l = Return b /\
      (all_finite (xs_of (fst l)) -> geb (width b) 0 = true) /\
      (all_finite (ys_of (fst l)) -> geb (height b) 0 = true).
Proof.
  intros H. apply result_to_boxes_inv in H. split.
  - symmetry. eapply Forall2_length; eassumption.
  - intros i b Hb.
    destruct (Forall2_nth_error_r _ _ _ _ _ H Hb) as (l & Hl & Hn).
    destruct (normalize_extent _ _ Hn)
      as ((xh & Ixh & Ix & Hx & ->) & (yh & Iyh & Iy & Hy & ->)).
    repeat split; try (now apply Binary64.sub_not_negative).
    exists l. repeat split; auto; intros F; unfold geb;
      apply Binary64.sub_nonneg; auto.
Qed.

Lemma extent_never_negative_witness :
  length [box_hello; box_dot; box_dot; box_world]
  = length (all_lines (Some [Some page_mixed])) /\
  forall i b, nth_error [box_hello; box_dot; box_dot; box_world] i = Some b ->
    (width b <? 0) = false /\ (height b <? 0) = false /\
    exists l,
      nth_error (all_lines (Some [Some page_mixed])) i = Some l /\
      normalize l = Return b /\
      (all_finite (xs_of (fst l)) -> geb (width b) 0 = true) /\
      (all_finite (ys_of (fst l)) -> geb (height b) 0 = true).
Proof.
  exact (extent_never_negative (Some [Some page_mixed])
           [box_hello; box_dot; box_dot; box_world] eq_refl).
Defined.

(** Three points on a diagonal are collinear, and their box has both a
    width and a height. *)
Lemma diagonal_box_has_extent :
  collinear diagonal = true /\
  exists b,
    normalize (diagonal, (EmptyString, 0.5)) = Return b /\
    zero_width_or_height b = false.
Proof.
  split; [reflexivity|].
  exists (mkBox 0 0 2 2 EmptyString 0.5). split; reflexivity.
Qed.

(** C7, amended. Normalization of a detection is total on every polygon
    with at least one point.  With finite coordinates, a polygon whose
    points all have the same x has width 0, one whose points all have the
    same y has height 0, a single point has both; the point (5, 5) yields
    x 5, y 5, width 0, height 0. *)
Theorem normalize_is_total :
  (forall p poly t s, exists b, normalize (p :: poly, (t, s)) = Return b) /\
  (forall l b, normalize l = Return b ->
     (all_finite (xs_of (fst l)) -> all_equal (xs_of (fst l)) ->
      width b = 0) /\
     (all_finite (ys_of (fst l)) -> all_equal (ys_of (fst l)) ->
      height b = 0)) /\
  (forall px py t s, is_finite px = true -> is_finite py = true ->
     normalize ([(px, py)], (t, s)) = Return (mkBox px py 0 0 t s)) /\
  (forall t s, normalize ([(5, 5)], (t, s)) = Return (mkBox 5 5 0 0 t s)).
Proof.
  split; [|split; [|split]].
  - intros p poly t s. rewrite normalize_cons. eauto.
  - intros [[|p poly] [t s]] b; [discriminate|].
    rewrite normalize_cons; intros [= <-]; cbn [width height fst].
    rewrite xs_of_cons, ys_of_cons.
    split; intros F E;
      rewrite min_from_all_equal, max_from_all_equal;
      try (intros v Hv; apply E; [now right | now left]);
      apply Binary64.sub_diag, F; now left.
  - intros px py t s Fx Fy. rewrite normalize_cons; simpl.
    now rewrite !Binary64.sub_diag.
  - reflexivity.
Qed.

Lemma normalize_is_total_witness :
  normalize ([(5, 5)], (EmptyString, 0.25)) =
  Return (mkBox 5 5 0 0 EmptyString 0.25).
Proof.
  exact (proj1 (proj2 (proj2 normalize_is_total)) 5 5 EmptyString 0.25
           eq_refl eq_refl).
Defined.

(** C8. Nothing is clamped: in every box of a response, [x] and [y] are
    coordinates of the detection's polygon, [width] and [height] are
    differences of such coordinates, and [confidence] is the detection's
    score, whatever the image and whatever the values; coordinates in the
    thousands and a score of 1.5 come out as they went in. *)
Theorem nothing_is_clamped :
  (forall A (decode : bytes -> outcome A) ocr content r,
     ocr_image decode ocr content = Return r ->
     forall i b, nth_error (boxes r) i = Some b ->
       exists img result l,
         decode content = Return img /\ ocr img = Return result /\
         nth_error (all_lines result) i = Some l /\
         confidence b = snd (snd l) /\
         In (x b) (xs_of (fst l)) /\ In (y b) (ys_of (fst l)) /\
         (exists hi, In hi (xs_of (fst l)) /\ width b = hi - x b) /\
         (exists hi, In hi (ys_of (fst l)) /\ height b = hi - y b)) /\
  normalize line_far = Return box_far.
Proof.
  split; [|reflexivity].
  intros A decode ocr content r H i b Hb.
  apply ocr_image_inv in H as (img & result & Hd & Ho & Hr).
  apply result_to_boxes_inv in Hr.
  destruct (Forall2_nth_error_r _ _ _ _ _ Hr Hb) as (l & Hl & Hn).
  exists img, result, l.
  destruct (normalize_extent _ _ Hn)
    as ((xh & Ixh & Ix & _ & Hw) & (yh & Iyh & Iy & _ & Hh)).
  apply normalize_bounding_box in Hn
    as (_ & _ & _ & _ & _ & _ & _ & _ & _ & Hc).
  repeat split; eauto.
Qed.

Lemma nothing_is_clamped_witness :
  exists img result l,
    stub_decode png_upload = Return img /\
    stub_ocr (Some [Some [line_far]]) img = Return result /\
    nth_error (all_lines result) 0 = Some l /\
    confidence box_far = snd (snd l) /\
    In (x box_far) (xs_of (fst l)) /\ In (y box_far) (ys_of (fst l)) /\
    (exists hi, In hi (xs_of (fst l)) /\ width box_far = hi - x box_far) /\
    (exists hi, In hi (ys_of (fst l)) /\ height box_far = hi - y box_far).
Proof.
  exact (proj1 nothing_is_clamped unit stub_decode
           (stub_ocr (Some [Some [line_far]])) png_upload
           {| boxes := [box_far] |} eq_refl 0%nat box_far eq_refl).
Defined.

(** C9. When the engine returns [None], the result is taken as no page at
    all: the handler returns an empty list of boxes and the response is 200
    with [{"boxes": []}]. *)
Theorem none_result_is_success {A} nf (decode : bytes -> outcome A) ocr
    content img :
  decode content = Return img ->
  ocr img = Return None ->
  or_empty None = [] /\
  ocr_image decode ocr content = Return {| boxes := [] |} /\
  post_ocr nf decode ocr content = ok_no_boxes.
Proof.
  intros Hd Ho. unfold post_ocr.
  rewrite (ocr_image_unfold _ _ _ _ _ Hd Ho).
  repeat split; reflexivity.
Qed.

Lemma none_result_is_success_witness :
  or_empty None = [] /\
  ocr_image stub_decode (stub_ocr None) png_upload = Return {| boxes := [] |} /\
  post_ocr refuse_non_finite stub_decode (stub_ocr None) png_upload =
  ok_no_boxes.
Proof.
  exact (none_result_is_success refuse_non_finite stub_decode (stub_ocr None)
           png_upload tt eq_refl eq_refl).
Defined.

(** * Runs of the handler on the sample data *)

Example post_hello nf :
  post_ocr nf stub_decode (stub_ocr (Some [Some [line_hello]])) png_upload =
  {| status := 200; body := JsonBody {| boxes := [box_hello] |} |}.
Proof. reflexivity. Qed.

Example post_junk nf :
  post_ocr nf stub_decode (stub_ocr (Some [Some [line_hello]])) junk_upload =
  internal_server_error.
Proof. reflexivity. Qed.

(** The results without detections that are lists: 200 and no box. *)
Example post_empty_lists nf :
  post_ocr nf stub_decode (stub_ocr (Some [])) png_upload = ok_no_boxes /\
  post_ocr nf stub_decode (stub_ocr (Some [Some []])) png_upload
  = ok_no_boxes /\
  post_ocr nf stub_decode (stub_ocr (Some [Some []; Some []])) png_upload
  = ok_no_boxes.
Proof. repeat split; reflexivity. Qed.

(** A detection without any point stops the handler, also after boxes were
    appended. *)
Example empty_polygon_raises :
  result_to_boxes (Some [Some [line_hello; ([], ("x"%string, 0.5))]]) =
  Raise ValueError.
Proof. reflexivity. Qed.

(** [min] and [max] keep the first of two zeros, and skip a NaN that is not
    the first item. *)
Example min_keeps_first_zero : py_min [0; -0] = Return 0.
Proof. reflexivity. Qed.

Example min_skips_later_nan : py_min [3; nan; 2] = Return 2.
Proof. reflexivity. Qed.

Example min_of_leading_nan : py_min [nan; 3; 2] = Return nan.
Proof. reflexivity. Qed.

(** * How the loops compose *)

Lemma bind_Return_r {A} (c : outcome A) : (a <- c ;; Return a) = c.
Proof. now destruct c. Qed.

Lemma loop_lines_split ls1 ls2 acc :
  loop_lines (ls1 ++ ls2) acc =
  acc' <- loop_lines ls1 acc ;; loop_lines ls2 acc'.
Proof.
  revert acc; induction ls1 as [|l ls1 IH]; intros acc; simpl; auto.
  destruct (normalize l) as [b|e]; simpl; auto.
Qed.

(** The list the loop starts from is only ever extended. *)
Lemma loop_lines_from ls acc :
  loop_lines ls acc = bs <- loop_lines ls [] ;; Return (acc ++ bs).
Proof.
  revert acc; induction ls as [|l ls IH]; intros acc; simpl.
  - now rewrite app_nil_r.
  - destruct (normalize l) as [b|e]; simpl; auto.
    rewrite (IH (acc ++ [b])), (IH [b]).
    destruct (loop_lines ls []) as [bs|e]; simpl; auto.
    now rewrite <- app_assoc.
Qed.

(** Pages that are lists are walked as one sequence of detections. *)
Lemma loop_pages_lists (pages : list (list line)) acc :
  loop_pages (map Some pages) acc = loop_lines (concat pages) acc.
Proof.
  revert acc; induction pages as [|p pages IH]; intros acc; simpl; auto.
  rewrite loop_lines_split.
  destruct (loop_lines p acc) as [acc'|e]; simpl; auto.
Qed.

Lemma loop_pages_split ps qs acc :
  loop_pages (ps ++ qs) acc =
  acc' <- loop_pages ps acc ;; loop_pages qs acc'.
Proof.
  revert acc; induction ps as [|p ps IH]; intros acc; simpl; auto.
  destruct (py_iter p) as [ls|e]; simpl; auto.
  destruct (loop_lines ls acc) as [acc'|e]; simpl; auto.
Qed.

Lemma loop_pages_from ps acc :
  loop_pages ps acc = bs <- loop_pages ps [] ;; Return (acc ++ bs).
Proof.
  revert acc; induction ps as [|p ps IH]; intros acc; simpl.
  - now rewrite app_nil_r.
  - destruct (py_iter p) as [ls|e]; simpl; auto.
    rewrite (loop_lines_from ls acc).
    destruct (loop_lines ls []) as [bs1|e]; simpl; auto.
    rewrite (IH (acc ++ bs1)), (IH bs1).
    destruct (loop_pages ps []) as [bs2|e]; simpl; auto.
    now rewrite <- app_assoc.
Qed.

(** X1. Page boundaries do not matter: the handler gives the same outcome,
    boxes or exception, when all detections come in a single page. *)
Theorem pages_are_flattened (pages : list (list line)) :
  result_to_boxes (Some (map Some pages)) =
  result_to_boxes (Some [Some (concat pages)]).
Proof.
  unfold result_to_boxes. rewrite or_empty_Some, loop_pages_lists.
  change [Some (concat pages)] with (map Some [concat pages]).
  rewrite or_empty_Some, loop_pages_lists.
  simpl. now rewrite app_nil_r.
Qed.

(** X2. The boxes of a result are the boxes of its first pages followed by
    the boxes of its later pages; a failure in the first pages wins over one
    in the later pages. *)
Theorem boxes_of_appended_pages (ps qs : list page) :
  result_to_boxes (Some (ps ++ qs)) =
  b1 <- result_to_boxes (Some ps) ;;
  b2 <- result_to_boxes (Some qs) ;;
  Return (b1 ++ b2).
Proof.
  unfold result_to_boxes.
  rewrite !or_empty_Some, loop_pages_split.
  destruct (loop_pages ps []) as [b1|e]; simpl; auto.
  apply loop_pages_from.
Qed.

(** * When the loops fail *)

Lemma normalize_raise l e :
  normalize l = Raise e -> e = ValueError /\ empty_polygon l.
Proof.
  destruct l as [[|p poly] [t s]].
  - rewrite normalize_nil. intros [= <-]. now split.
  - rewrite normalize_cons. discriminate.
Qed.

Lemma loop_lines_raise ls acc e :
  loop_lines ls acc = Raise e <->
  e = ValueError /\ Exists empty_polygon ls.
Proof.
  revert acc; induction ls as [|l ls IH]; intros acc; simpl.
  - split; [discriminate|]. intros [_ H]. inversion H.
  - destruct (normalize l) as [b|e'] eqn:Hl; simpl.
    + rewrite IH. split; intros [He H]; split; auto.
      inversion H as [? ? Hemp|]; subst; auto.
      apply normalize_returns_nonempty in Hl. contradiction.
    + destruct (normalize_raise _ _ Hl) as [-> Hemp].
      split.
      * intros [= <-]. split; auto.
      * intros [-> _]. reflexivity.
Qed.

Lemma loop_pages_raise pages acc e :
  loop_pages pages acc = Raise e ->
  (e = TypeError /\ In None pages) \/
  (e = ValueError /\ Exists empty_polygon (flat_map lines_of pages)).
Proof.
  revert acc; induction pages as [|p pages IH]; intros acc; simpl;
    [discriminate|].
  destruct p as [ls|]; simpl.
  - destruct (loop_lines ls acc) as [acc'|e'] eqn:Hl; simpl.
    + intros H. destruct (IH _ H) as [[-> Hn]|[-> Hx]]; [left|right]; auto.
      split; auto. apply Exists_app. now right.
    + intros [= <-]. apply loop_lines_raise in Hl as [-> Hx].
      right. split; auto. apply Exists_app. now left.
  - intros [= <-]. left. auto.
Qed.

Lemma loop_pages_good (good : list (list line)) :
  Forall (fun l => fst l <> []) (concat good) ->
  exists bs, loop_pages (map Some good) [] = Return bs.
Proof.
  intros H. destruct (Forall2_normalizes_total _ H) as [bs Hbs].
  exists bs. apply result_to_boxes_lists in Hbs.
  unfold result_to_boxes in Hbs. now rewrite or_empty_Some in Hbs.
Qed.

(** X3. On a result whose pages are lists of lines or [None], the loops
    return boxes exactly when every page is a list and every polygon has a
    point.  Otherwise the first offender in iteration order decides: a
    page that is [None] raises [TypeError], a polygon without points raises
    [ValueError]; no box is returned then, not even those appended before. *)
Theorem first_offender_decides :
  (forall result,
     (exists bs, result_to_boxes result = Return bs) <->
     Forall is_list (or_empty result) /\
     Forall (fun l => fst l <> []) (all_lines result)) /\
  (forall result,
     result_to_boxes result = Raise TypeError -> In None (or_empty result)) /\
  (forall result,
     result_to_boxes result = Raise ValueError ->
     Exists empty_polygon (all_lines result)) /\
  (forall (good : list (list line)) (rest : list page),
     Forall (fun l => fst l <> []) (concat good) ->
     result_to_boxes (Some (map Some good ++ None :: rest))
     = Raise TypeError) /\
  (forall (good : list (list line)) (ls1 : list line) l ls2
          (rest : list page),
     Forall (fun l => fst l <> []) (concat good ++ ls1) ->
     empty_polygon l ->
     result_to_boxes (Some (map Some good ++ Some (ls1 ++ l :: ls2) :: rest))
     = Raise ValueError).
Proof.
  split; [|split; [|split; [|split]]].
  - intros result. split.
    + intros [bs H]. apply result_to_boxes_iff in H as [L H].
      split; [assumption|].
      induction H as [|l b ls bs' Hl _ IH]; constructor; auto.
      now apply normalize_returns_nonempty in Hl.
    + intros [L H]. destruct (Forall2_normalizes_total _ H) as [bs Hbs].
      exists bs. now apply result_to_boxes_iff.
  - intros result H. apply loop_pages_raise in H as [[_ H]|[H _]];
      [assumption|discriminate].
  - intros result H. apply loop_pages_raise in H as [[H _]|[_ H]];
      [discriminate|assumption].
  - intros good rest H. unfold result_to_boxes.
    rewrite or_empty_Some, loop_pages_split.
    destruct (loop_pages_good good H) as [bs ->]. reflexivity.
  - intros good ls1 l ls2 rest H Hl. apply Forall_app in H as [Hg H1].
    unfold result_to_boxes.
    rewrite or_empty_Some, loop_pages_split.
    destruct (loop_pages_good good Hg) as [bs ->]. simpl.
    assert (E : loop_lines (ls1 ++ l :: ls2) bs = Raise ValueError).
    { apply loop_lines_raise. split; auto.
      apply Exists_app. right. now left. }
    now rewrite E.
Qed.

(** * More on the order of binary64 values *)

Module Binary64Order.

Import Binary64.

Lemma SFeqb_refl r : SFeqb r r = negb (sf_is_nan r).
Proof.
  unfold SFeqb, SFcompare.
  destruct r as [[]|[]| |[] m e]; try reflexivity;
    rewrite Z.compare_refl; fold (Pos.compare m m);
    rewrite Pos.compare_refl; reflexivity.
Qed.

Lemma SFltb_true_not_nan a b :
  SFltb a b = true -> sf_is_nan a = false /\ sf_is_nan b = false.
Proof.
  destruct a as [[]|[]| |[] m1 e1], b as [[]|[]| |[] m2 e2];
    try discriminate; now split.
Qed.

Lemma SFeqb_sym a b : SFeqb a b = true -> SFeqb b a = true.
Proof.
  unfold SFeqb, SFcompare.
  destruct a as [[]|[]| |[] m1 e1], b as [[]|[]| |[] m2 e2];
    try reflexivity; try discriminate;
    fold (Pos.compare m1 m2); fold (Pos.compare m2 m1);
    destruct (Z.compare_spec e1 e2), (Z.compare_spec e2 e1);
    try discriminate; try lia;
    destruct (Pos.compare_spec m1 m2), (Pos.compare_spec m2 m1);
    simpl; try reflexivity; try discriminate; try lia.
Qed.

Lemma SFleb_antisym a b :
  SFleb a b = true -> SFleb b a = true -> SFeqb a b = true.
Proof.
  unfold SFleb, SFeqb, SFcompare.
  destruct a as [[]|[]| |[] m1 e1], b as [[]|[]| |[] m2 e2];
    try reflexivity; try discriminate;
    fold (Pos.compare m1 m2); fold (Pos.compare m2 m1);
    destruct (Z.compare_spec e1 e2), (Z.compare_spec e2 e1);
    try discriminate; try lia;
    destruct (Pos.compare_spec m1 m2), (Pos.compare_spec m2 m1);
    simpl; try reflexivity; try discriminate; try lia.
Qed.

(** [a <= b] and [b == c] give [a <= c]. *)
Lemma SFleb_eqb a b c :
  SFleb a b = true -> SFeqb b c = true -> SFleb a c = true.
Proof.
  unfold SFleb, SFeqb, SFcompare.
  destruct a as [[]|[]| |[] m1 e1], b as [[]|[]| |[] m2 e2],
           c as [[]|[]| |[] m3 e3];
    try reflexivity; try discriminate;
    fold (Pos.compare m1 m2); fold (Pos.compare m2 m3);
    fold (Pos.compare m1 m3);
    destruct (Z.compare_spec e1 e2), (Z.compare_spec e2 e3),
             (Z.compare_spec e1 e3);
    try reflexivity; try discriminate; try lia;
    destruct (Pos.compare_spec m1 m2), (Pos.compare_spec m2 m3),
             (Pos.compare_spec m1 m3);
    simpl; try reflexivity; try discriminate; try lia.
Qed.

Lemma SFeqb_leb a b : SFeqb a b = true -> SFleb a b = true.
Proof.
  unfold SFleb, SFeqb. destruct (SFcompare a b) as [[]|]; easy.
Qed.

(** Two finite values that compare equal are the same or are two zeros. *)
Lemma SFeqb_finite_cases a b :
  sf_finite a = true -> sf_finite b = true -> SFeqb a b = true ->
  a = b \/ exists s s', a = S754_zero s /\ b = S754_zero s'.
Proof.
  unfold SFeqb, SFcompare.
  destruct a as [sa|sa| |sa m1 e1], b as [sb|sb| |sb m2 e2];
    try discriminate; intros _ _.
  - right; eauto.
  - now destruct sb.
  - now destruct sa.
  - fold (Pos.compare m1 m2).
    destruct sa, sb; try discriminate;
      destruct (Z.compare_spec e1 e2); try discriminate;
      destruct (Pos.compare_spec m1 m2); try discriminate;
      intros _; left; congruence.
Qed.

Lemma is_nan_spec a : is_nan a = sf_is_nan (Prim2SF a).
Proof.
  unfold is_nan. now rewrite eqb_spec, SFeqb_refl, negb_involutive.
Qed.

Lemma ltb_true_not_nan a b :
  (a <? b) = true -> is_nan a = false /\ is_nan b = false.
Proof. rewrite ltb_spec, !is_nan_spec. apply SFltb_true_not_nan. Qed.

Lemma ltb_nan_l a b : is_nan a = true -> (a <? b) = false.
Proof.
  intros H. destruct (a <? b) eqn:E; auto.
  apply ltb_true_not_nan in E as [E _]. congruence.
Qed.

Lemma ltb_nan_r a b : is_nan b = true -> (a <? b) = false.
Proof.
  intros H. destruct (a <? b) eqn:E; auto.
  apply ltb_true_not_nan in E as [_ E]. congruence.
Qed.

Lemma eqb_refl a : is_nan a = false -> (a =? a) = true.
Proof. unfold is_nan. now rewrite negb_false_iff. Qed.

Lemma eqb_sym a b : (a =? b) = true -> (b =? a) = true.
Proof. rewrite !eqb_spec. apply SFeqb_sym. Qed.

Lemma leb_antisym a b :
  (a <=? b) = true -> (b <=? a) = true -> (a =? b) = true.
Proof. rewrite !leb_spec, eqb_spec. apply SFleb_antisym. Qed.

Lemma leb_eqb a b c :
  (a <=? b) = true -> (b =? c) = true -> (a <=? c) = true.
Proof. rewrite !leb_spec, eqb_spec. apply SFleb_eqb. Qed.

Lemma eqb_leb a b : (a =? b) = true -> (a <=? b) = true.
Proof. rewrite leb_spec, eqb_spec. apply SFeqb_leb. Qed.

Lemma eqb_trans a b c :
  (a =? b) = true -> (b =? c) = true -> (a =? c) = true.
Proof.
  intros H1 H2. apply leb_antisym.
  - eapply leb_eqb; eauto using eqb_leb.
  - eapply leb_eqb; eauto using eqb_leb, eqb_sym.
Qed.

Lemma sub_nan_l a b : is_nan a = true -> is_nan (a - b) = true.
Proof.
  rewrite !is_nan_spec, sub_spec.
  now destruct (Prim2SF a), (Prim2SF b).
Qed.

End Binary64Order.

(** * NaN coordinates *)

Section NaN.

Import Binary64Order.

Lemma min_from_skips_nan best vs :
  min_from best vs = min_from best (filter not_nan vs).
Proof.
  revert best; induction vs as [|v vs IH]; intros best; simpl; auto.
  unfold not_nan at 1. destruct (is_nan v) eqn:N; simpl.
  - rewrite ltb_nan_l by assumption. apply IH.
  - apply IH.
Qed.

Lemma max_from_skips_nan best vs :
  max_from best vs = max_from best (filter not_nan vs).
Proof.
  revert best; induction vs as [|v vs IH]; intros best; simpl; auto.
  unfold not_nan at 1, gtb. destruct (is_nan v) eqn:N; simpl.
  - rewrite ltb_nan_r by assumption. apply IH.
  - apply IH.
Qed.

Lemma is_nan_min_from best vs : is_nan (min_from best vs) = is_nan best.
Proof.
  revert best; induction vs as [|v vs IH]; intros best; simpl; auto.
  rewrite IH. destruct (v <? best) eqn:E; auto.
  apply ltb_true_not_nan in E as [-> ->]. reflexivity.
Qed.

Lemma is_nan_max_from best vs : is_nan (max_from best vs) = is_nan best.
Proof.
  revert best; induction vs as [|v vs IH]; intros best; simpl; auto.
  rewrite IH. unfold gtb. destruct (best <? v) eqn:E; auto.
  apply ltb_true_not_nan in E as [-> ->]. reflexivity.
Qed.

Lemma xs_of_filter (f : float -> bool) poly :
  xs_of (filter (fun q => f (fst q)) poly) = filter f (xs_of poly).
Proof.
  induction poly as [|q poly IH]; simpl; auto.
  unfold py_float at 1. destruct (f (fst q)); simpl; now rewrite IH.
Qed.

Lemma ys_of_filter (f : float -> bool) poly :
  ys_of (filter (fun q => f (snd q)) poly) = filter f (ys_of poly).
Proof.
  induction poly as [|q poly IH]; simpl; auto.
  unfold py_float at 1. destruct (f (snd q)); simpl; now rewrite IH.
Qed.

(** X5. A NaN coordinate counts only in the first point of a polygon.  The
    box has a NaN [x] (and then a NaN [width]) exactly when the first
    point's x is a NaN, and likewise for y; a NaN at a later point is skipped
    by [min] and [max]: dropping the later points whose x is a NaN leaves [x]
    and [width] as they are, and the same holds for y and [height]. *)
Theorem nan_counts_only_in_first_point p poly t s :
  exists b bx by_,
    normalize (p :: poly, (t, s)) = Return b /\
    normalize (p :: filter (fun q => not_nan (fst q)) poly, (t, s))
      = Return bx /\
    normalize (p :: filter (fun q => not_nan (snd q)) poly, (t, s))
      = Return by_ /\
    is_nan (x b) = is_nan (fst p) /\ is_nan (y b) = is_nan (snd p) /\
    (is_nan (fst p) = true -> is_nan (width b) = true) /\
    (is_nan (snd p) = true -> is_nan (height b) = true) /\
    x bx = x b /\ width bx = width b /\
    y by_ = y b /\ height by_ = height b.
Proof.
  rewrite !normalize_cons. do 3 eexists.
  do 3 (split; [reflexivity|]).
  cbn [x y width height].
  rewrite xs_of_filter, ys_of_filter.
  rewrite <- !min_from_skips_nan, <- !max_from_skips_nan.
  rewrite !is_nan_min_from.
  repeat split; intros H; apply sub_nan_l; now rewrite is_nan_max_from.
Qed.

End NaN.

(** * The order of the points *)

Module Binary64Sub.

Import Binary64 Binary64Order.

Lemma sf_sign_is_not_nan s r : sf_sign_is s r -> sf_is_nan r = false.
Proof. now destruct r. Qed.

Lemma binary_normalize_not_nan m e :
  sf_is_nan (binary_normalize prec emax m e false) = false.
Proof.
  destruct m as [|p|p]; cbn [binary_normalize]; try reflexivity;
    eapply sf_sign_is_not_nan, binary_round_sign.
Qed.

Lemma SFsub_finite_not_nan a b :
  sf_finite a = true -> sf_finite b = true ->
  sf_is_nan (SF64sub a b) = false.
Proof.
  destruct a as [sa|sa| |sa ma ea], b as [sb|sb| |sb mb eb];
    try discriminate; intros _ _.
  - now destruct sa, sb.
  - reflexivity.
  - reflexivity.
  - apply binary_normalize_not_nan.
Qed.

Lemma SFsub_eqb_refl a b :
  sf_finite a = true -> sf_finite b = true ->
  SFeqb (SF64sub a b) (SF64sub a b) = true.
Proof.
  intros Fa Fb. now rewrite SFeqb_refl, SFsub_finite_not_nan.
Qed.

(** Subtraction respects [==] on finite values. *)
Lemma SFsub_eqb_compat a a' b b' :
  sf_finite a = true -> sf_finite a' = true ->
  sf_finite b = true -> sf_finite b' = true ->
  SFeqb a a' = true -> SFeqb b b' = true ->
  SFeqb (SF64sub a b) (SF64sub a' b') = true.
Proof.
  intros Fa Fa' Fb Fb' Ea Eb.
  destruct (SFeqb_finite_cases a a' Fa Fa' Ea) as [<-|(sa & sa' & -> & ->)];
    destruct (SFeqb_finite_cases b b' Fb Fb' Eb) as [<-|(sb & sb' & -> & ->)].
  - now apply SFsub_eqb_refl.
  - destruct a as [sa|sa| |sa ma ea]; try discriminate.
    + now destruct sa, sb, sb'.
    + now apply (SFsub_eqb_refl (S754_finite sa ma ea) (S754_zero sb)).
  - destruct b as [sb|sb| |sb mb eb]; try discriminate.
    + now destruct sa, sa', sb.
    + now apply (SFsub_eqb_refl (S754_zero sa) (S754_finite sb mb eb)).
  - now destruct sa, sa', sb, sb'.
Qed.

Lemma sub_eqb_compat a a' b b' :
  is_finite a = true -> is_finite a' = true ->
  is_finite b = true -> is_finite b' = true ->
  (a =? a') = true -> (b =? b') = true -> (a - b =? a' - b') = true.
Proof.
  intros Fa Fa' Fb Fb'. rewrite !eqb_spec, !sub_spec.
  apply SFsub_eqb_compat; now apply is_finite_sf.
Qed.

End Binary64Sub.

Section PointOrder.

Import Binary64 Binary64Order Binary64Sub.

Lemma all_finite_not_nan vs :
  all_finite vs -> forall v, In v vs -> is_nan v = false.
Proof. intros F v Hv. apply is_finite_not_nan, F, Hv. Qed.

Lemma all_finite_perm vs vs' :
  Permutation vs vs' -> all_finite vs -> all_finite vs'.
Proof.
  intros P F v Hv. apply F, (Permutation_in v (Permutation_sym P) Hv).
Qed.

(** Two minima of the same NaN-free values compare equal. *)
Lemma is_minimum_perm vs vs' m m' :
  Permutation vs vs' -> (forall v, In v vs -> is_nan v = false) ->
  is_minimum m vs -> is_minimum m' vs' -> (m =? m') = true.
Proof.
  intros P N (Im & _ & Hm) (Im' & _ & Hm').
  assert (N' : forall v, In v vs' -> is_nan v = false).
  { intros v Hv. apply N, (Permutation_in v (Permutation_sym P) Hv). }
  apply leb_antisym.
  - apply Hm; auto. apply (Permutation_in m' (Permutation_sym P) Im').
  - apply Hm'; auto. apply (Permutation_in m P Im).
Qed.

Lemma is_maximum_perm vs vs' m m' :
  Permutation vs vs' -> (forall v, In v vs -> is_nan v = false) ->
  is_maximum m vs -> is_maximum m' vs' -> (m =? m') = true.
Proof.
  intros P N (Im & _ & Hm) (Im' & _ & Hm').
  assert (N' : forall v, In v vs' -> is_nan v = false).
  { intros v Hv. apply N, (Permutation_in v (Permutation_sym P) Hv). }
  unfold geb in *. apply leb_antisym.
  - apply Hm'; auto. apply (Permutation_in m P Im).
  - apply Hm; auto. apply (Permutation_in m' (Permutation_sym P) Im').
Qed.

(** X6. With finite coordinates the box does not depend on the order of
    the points of the polygon (its winding or its first corner): any
    rearrangement of the points yields a box with the same text and
    confidence and with [x], [y], [width] and [height] equal under [==]. *)
Theorem point_order_is_irrelevant poly poly' t s b :
  Permutation poly poly' ->
  finite_polygon poly ->
  normalize (poly, (t, s)) = Return b ->
  exists b', normalize (poly', (t, s)) = Return b' /\ same_box b b'.
Proof.
  intros P [Fx Fy] H.
  assert (Px : Permutation (xs_of poly) (xs_of poly'))
    by now apply Permutation_map.
  assert (Py : Permutation (ys_of poly) (ys_of poly'))
    by now apply Permutation_map.
  destruct (normalize_total (poly', (t, s))) as [b' H'].
  { cbn [fst]. intros ->. apply Permutation_sym, Permutation_nil in P.
    subst. discriminate. }
  exists b'. split; [assumption|].
  pose proof (all_finite_perm _ _ Px Fx) as Fx'.
  pose proof (all_finite_perm _ _ Py Fy) as Fy'.
  apply normalize_bounding_box in H
    as (xm & ym & Hx & Hxm & Hy & Hym & Hw & Hh & Ht & Hc).
  apply normalize_bounding_box in H'
    as (xm' & ym' & Hx' & Hxm' & Hy' & Hym' & Hw' & Hh' & Ht' & Hc').
  cbn [fst snd] in *.
  pose proof (is_minimum_perm _ _ _ _ Px (all_finite_not_nan _ Fx) Hx Hx').
  pose proof (is_minimum_perm _ _ _ _ Py (all_finite_not_nan _ Fy) Hy Hy').
  pose proof (is_maximum_perm _ _ _ _ Px (all_finite_not_nan _ Fx) Hxm Hxm').
  pose proof (is_maximum_perm _ _ _ _ Py (all_finite_not_nan _ Fy) Hym Hym').
  destruct Hx as (Ix & _), Hx' as (Ix' & _), Hy as (Iy & _), Hy' as (Iy' & _),
    Hxm as (Ixm & _), Hxm' as (Ixm' & _), Hym as (Iym & _), Hym' as (Iym' & _).
  unfold same_box, all_finite in *.
  rewrite Hw, Hw', Hh, Hh', Ht, Ht', Hc, Hc'.
  repeat split; auto; apply sub_eqb_compat; auto.
Qed.

Lemma point_order_is_irrelevant_witness :
  exists b',
    normalize ([(50, 20); (50, 60); (10, 60); (10, 20)], ("HELLO"%string, 0.5))
      = Return b' /\
    same_box (mkBox 10 20 40 40 "HELLO" 0.5) b'.
Proof.
  apply (point_order_is_irrelevant rect_10_20_50_60).
  - exact (Permutation_cons_append [(50, 20); (50, 60); (10, 60)] (10, 20)).
  - split; intros v Hv; simpl in Hv;
      repeat (destruct Hv as [<-|Hv]; [reflexivity|]); contradiction.
  - reflexivity.
Defined.

End PointOrder.

(** * Differences that are zero *)

Module Binary64Zero.

Import Binary64 Binary64Order.

Section Spec.

Local Open Scope Z_scope.

Lemma shr_1_lower mrs k : 2 * k <= shr_m mrs -> k <= shr_m (shr_1 mrs).
Proof.
  destruct mrs as [m r s].
  destruct m as [|[p|p|]|[p|p|]]; cbn [shr_1 shr_m]; lia.
Qed.

(** Shifting [p] bits out keeps at least the quotient by [2 ^ p]. *)
Lemma iter_shr_1_lower p :
  forall mrs k,
    k * 2 ^ Zpos p <= shr_m mrs -> k <= shr_m (iter_pos shr_1 p mrs).
Proof.
  induction p as [p IH|p IH|]; intros mrs k H; simpl.
  - apply IH, IH, shr_1_lower.
    replace (Zpos p~1) with (Zpos p + Zpos p + 1) in H by lia.
    rewrite !Z.pow_add_r, Z.pow_1_r in H by lia. lia.
  - apply IH, IH.
    replace (Zpos p~0) with (Zpos p + Zpos p) in H by lia.
    rewrite Z.pow_add_r in H by lia. lia.
  - apply shr_1_lower. rewrite Z.pow_1_r in H. lia.
Qed.

Lemma digits2_pos_lower m : 2 ^ (Zpos (digits2_pos m) - 1) <= Zpos m.
Proof.
  rewrite digits2_pos_size.
  pose proof (Pos.size_le m) as H.
  assert (H2 : 2 ^ Zpos (Pos.size m) <= 2 * Zpos m).
  { rewrite <- Pos2Z.inj_pow. lia. }
  replace (Zpos (Pos.size m)) with (Z.succ (Zpos (Pos.size m) - 1)) in H2
    by lia.
  rewrite Z.pow_succ_r in H2 by lia. lia.
Qed.

(** Above the least exponent, the shift to the format keeps a positive
    mantissa positive. *)
Lemma shr_fexp_positive m e l :
  1 <= m -> -1074 <= e ->
  1 <= shr_m (fst (shr_fexp prec emax m e l)) /\
  -1074 <= snd (shr_fexp prec emax m e l).
Proof.
  intros Hm He. destruct m as [|p|p]; try lia.
  unfold shr_fexp, fexp, SpecFloat.emin, prec, emax, Zdigits2, shr.
  destruct (Z.max (Zpos (digits2_pos p) + e - 53) (3 - 1024 - 53) - e)
    as [|q|q] eqn:E; cbn [fst snd]; rewrite ?shr_record_of_loc_m;
    try (split; lia).
  split; [|lia].
  apply iter_shr_1_lower. rewrite shr_record_of_loc_m, Z.mul_1_l.
  apply Z.le_trans with (2 ^ (Zpos (digits2_pos p) - 1)).
  - apply Z.pow_le_mono_r; lia.
  - apply digits2_pos_lower.
Qed.

Lemma round_nearest_even_lower m l : m <= round_nearest_even m l.
Proof.
  destruct l as [|[]]; simpl; try lia. destruct (Z.even m); lia.
Qed.

Lemma binary_round_aux_nonzero s m e l :
  1 <= m -> -1074 <= e ->
  sf_is_zero (binary_round_aux prec emax s m e l) = false.
Proof.
  intros Hm He. unfold binary_round_aux.
  destruct (shr_fexp_positive m e l Hm He) as [H1 H1e].
  destruct (shr_fexp prec emax m e l) as [mrs' e']; cbn [fst snd] in H1, H1e.
  pose proof (round_nearest_even_lower (shr_m mrs') (loc_of_shr_record mrs'))
    as Hr.
  destruct (shr_fexp_positive
              (round_nearest_even (shr_m mrs') (loc_of_shr_record mrs'))
              e' loc_Exact) as [H2 _]; try lia.
  destruct (shr_fexp prec emax _ e' loc_Exact) as [mrs'' e''];
    cbn [fst] in H2.
  destruct (shr_m mrs'') as [|p|p]; try lia.
  destruct (_ <=? _); reflexivity.
Qed.

Lemma shl_align_exponent m e e' :
  -1074 <= e -> -1074 <= e' -> -1074 <= snd (shl_align m e e').
Proof.
  intros He He'. unfold shl_align. destruct (e' - e); simpl; lia.
Qed.

Lemma binary_round_nonzero s m e :
  -1074 <= e -> sf_is_zero (binary_round prec emax s m e) = false.
Proof.
  intros He. unfold binary_round.
  pose proof (shl_align_exponent m e
                (fexp prec emax (Zpos (digits2_pos m) + e)) He) as H.
  destruct (shl_align m e _) as [mz ez]; cbn [snd] in H.
  apply binary_round_aux_nonzero; [lia|]. apply H.
  unfold fexp, SpecFloat.emin, prec, emax. lia.
Qed.

Lemma binary_normalize_zero m e :
  -1074 <= e ->
  sf_is_zero (binary_normalize prec emax m e false) = true -> m = 0.
Proof.
  intros He. destruct m as [|p|p]; cbn [binary_normalize]; auto;
    rewrite binary_round_nonzero by assumption; discriminate.
Qed.

Lemma aligned_difference_zero sx mx ex sy my ey :
  bounded prec emax mx ex = true ->
  bounded prec emax my ey = true ->
  cond_Zopp sx (Zpos (fst (shl_align mx ex (Z.min ex ey))))
  - cond_Zopp sy (Zpos (fst (shl_align my ey (Z.min ex ey)))) = 0 ->
  SFeqb (S754_finite sx mx ex) (S754_finite sy my ey) = true.
Proof.
  intros Bx By.
  destruct (bounded_mantissa _ _ Bx) as (Hx1 & Hx2 & Hx3).
  destruct (bounded_mantissa _ _ By) as (Hy1 & Hy2 & Hy3).
  unfold SFeqb, SFcompare; fold (Pos.compare mx my).
  destruct (Z.compare_spec ex ey) as [E|E|E].
  - subst ey. rewrite Z.min_id, !shl_align_same.
    destruct sx, sy; cbn [cond_Zopp]; intros H; try lia;
      assert (mx = my) as -> by lia; now rewrite Pos.compare_refl.
  - rewrite Z.min_l by lia. rewrite shl_align_same.
    pose proof (shl_align_below my ey ex E).
    destruct sx, sy; cbn [cond_Zopp]; lia.
  - rewrite Z.min_r by lia. rewrite shl_align_same.
    pose proof (shl_align_below mx ex ey E).
    destruct sx, sy; cbn [cond_Zopp]; lia.
Qed.

(** A difference of finite values is a zero only when they compare
    equal: there is no underflow to zero. *)
Lemma SFsub_zero_eqb a b :
  valid_binary a = true -> valid_binary b = true ->
  sf_finite a = true -> sf_finite b = true ->
  sf_is_zero (SF64sub a b) = true -> SFeqb a b = true.
Proof.
  intros Va Vb Fa Fb.
  destruct a as [sa|sa| |sa ma ea], b as [sb|sb| |sb mb eb];
    try discriminate; try reflexivity.
  unfold SF64sub, SFsub. intros H.
  destruct (bounded_mantissa _ _ Va) as (_ & Ha & _).
  destruct (bounded_mantissa _ _ Vb) as (_ & Hb & _).
  apply binary_normalize_zero in H; [|lia].
  now apply aligned_difference_zero.
Qed.

Lemma SFeqb_zero_r r : SFeqb r (S754_zero false) = sf_is_zero r.
Proof. now destruct r as [[]|[]| |[] m e]. Qed.

End Spec.

Lemma sub_eqb_zero a b :
  is_finite a = true -> is_finite b = true ->
  (a - b =? 0) = true -> (a =? b) = true.
Proof.
  intros Fa Fb. rewrite !eqb_spec, sub_spec, Prim2SF_zero, SFeqb_zero_r.
  apply SFsub_zero_eqb; auto using Prim2SF_valid, is_finite_sf.
Qed.

End Binary64Zero.

(** * Boxes without extent *)

Section Degenerate.

Import Binary64 Binary64Order Binary64Zero.

(** The difference of a maximum and a minimum is zero exactly when all
    values compare equal. *)
Lemma extent_zero_iff vs lo hi :
  all_finite vs -> is_minimum lo vs -> is_maximum hi vs ->
  ((hi - lo =? 0) = true <-> all_equal vs).
Proof.
  intros F (Ilo & _ & Hlo) (Ihi & _ & Hhi).
  pose proof (all_finite_not_nan _ F) as N.
  specialize (Hlo N). specialize (Hhi N). unfold geb in Hhi.
  split.
  - intros Z. apply sub_eqb_zero in Z; [|apply F, Ihi|apply F, Ilo].
    assert (E : forall v, In v vs -> (v =? lo) = true).
    { intros v Hv. apply leb_antisym; auto.
      eapply leb_eqb; eauto. }
    intros u v Hu Hv.
    eapply eqb_trans; [apply E, Hu | apply eqb_sym, E, Hv].
  - intros E. rewrite <- (sub_diag lo) by apply F, Ilo.
    apply Binary64Sub.sub_eqb_compat; try (apply F; assumption).
    + now apply E.
    + apply eqb_refl, N, Ilo.
Qed.

(** X7. With finite coordinates, a box has width zero exactly when all
    points of its polygon have the same x, and height zero exactly when
    they all have the same y. *)
Theorem zero_extent_iff_equal_coordinates l b :
  normalize l = Return b ->
  (all_finite (xs_of (fst l)) ->
   ((width b =? 0) = true <-> all_equal (xs_of (fst l)))) /\
  (all_finite (ys_of (fst l)) ->
   ((height b =? 0) = true <-> all_equal (ys_of (fst l)))).
Proof.
  intros H.
  apply normalize_bounding_box in H
    as (xm & ym & Hx & Hxm & Hy & Hym & -> & -> & _).
  split; intros F; now apply extent_zero_iff.
Qed.

Lemma zero_extent_iff_equal_coordinates_witness :
  (all_finite (xs_of (fst line_dot)) ->
   ((width box_dot =? 0) = true <-> all_equal (xs_of (fst line_dot)))) /\
  (all_finite (ys_of (fst line_dot)) ->
   ((height box_dot =? 0) = true <-> all_equal (ys_of (fst line_dot)))).
Proof.
  exact (zero_extent_iff_equal_coordinates line_dot box_dot eq_refl).
Defined.

End Degenerate.

(** * The properties above on the sample data *)

Lemma first_offender_decides_witness :
  result_to_boxes
    (Some (map Some [[line_hello]]
           ++ Some ([line_world] ++ line_empty :: [line_dot]) :: [None]))
  = Raise ValueError.
Proof.
  apply (proj2 (proj2 (proj2 (proj2 first_offender_decides)))
           [[line_hello]] [line_world] line_empty [line_dot] [None]).
  - repeat constructor; discriminate.
  - reflexivity.
Defined.

(** A page that is [None] met before the polygon without points. *)
Example none_page_met_first :
  result_to_boxes (Some [Some [line_hello]; None; Some [line_empty]]) =
  Raise TypeError.
Proof. reflexivity. Qed.

Lemma nan_counts_only_in_first_point_witness :
  exists b bx by_,
    normalize (point_nan_x :: points_nan_y, ("t"%string, 0.5)) = Return b /\
    normalize (point_nan_x :: filter (fun q => not_nan (fst q)) points_nan_y,
               ("t"%string, 0.5)) = Return bx /\
    normalize (point_nan_x :: filter (fun q => not_nan (snd q)) points_nan_y,
               ("t"%string, 0.5)) = Return by_ /\
    is_nan (x b) = is_nan (fst point_nan_x) /\
    is_nan (y b) = is_nan (snd point_nan_x) /\
    (is_nan (fst point_nan_x) = true -> is_nan (width b) = true) /\
    (is_nan (snd point_nan_x) = true -> is_nan (height b) = true) /\
    x bx = x b /\ width bx = width b /\
    y by_ = y b /\ height by_ = height b.
Proof.
  exact (nan_counts_only_in_first_point point_nan_x points_nan_y "t" 0.5).
Defined.

(** The box of the sample with NaNs: x and width are NaN, y and height come
    from the points whose y is a number. *)
Example normalize_nan_sample :
  normalize (point_nan_x :: points_nan_y, ("t"%string, 0.5)) =
  Return (mkBox nan 1 nan 3 "t" 0.5).
Proof. reflexivity. Qed.

(** * Differences that do not overflow *)

Module Binary64Range.

Import Binary64 Binary64Order Binary64Zero.

Section Spec.

Local Open Scope Z_scope.

Lemma shr_1_upper mrs : 0 <= shr_m mrs -> 2 * shr_m (shr_1 mrs) <= shr_m mrs.
Proof.
  destruct mrs as [m r s].
  destruct m as [|[p|p|]|[p|p|]]; cbn [shr_1 shr_m]; lia.
Qed.

Lemma iter_shr_1_upper p :
  forall mrs, 0 <= shr_m mrs ->
    shr_m (iter_pos shr_1 p mrs) * 2 ^ Zpos p <= shr_m mrs.
Proof.
  induction p as [p IH|p IH|]; intros mrs H; cbn [iter_pos].
  - pose proof (shr_1_nonneg mrs H) as H1.
    pose proof (shr_1_upper mrs H) as U1.
    pose proof (IH _ H1) as U2.
    assert (H2 : 0 <= shr_m (iter_pos shr_1 p (shr_1 mrs)))
      by (apply (iter_pos_invariant (fun r => 0 <= shr_m r));
          auto using shr_1_nonneg).
    pose proof (IH _ H2) as U3.
    replace (Zpos p~1) with (Zpos p + Zpos p + 1) by lia.
    rewrite !Z.pow_add_r, Z.pow_1_r by lia.
    assert (P : 0 < 2 ^ Zpos p) by (apply Z.pow_pos_nonneg; lia).
    nia.
  - assert (H2 : 0 <= shr_m (iter_pos shr_1 p mrs))
      by (apply (iter_pos_invariant (fun r => 0 <= shr_m r));
          auto using shr_1_nonneg).
    pose proof (IH _ H) as U2. pose proof (IH _ H2) as U3.
    replace (Zpos p~0) with (Zpos p + Zpos p) by lia.
    rewrite Z.pow_add_r by lia.
    assert (P : 0 < 2 ^ Zpos p) by (apply Z.pow_pos_nonneg; lia).
    nia.
  - pose proof (shr_1_upper mrs H). rewrite Z.pow_1_r. lia.
Qed.

Lemma Zdigits2_upper m k : 0 <= m < 2 ^ k -> 0 <= k -> Zdigits2 m <= k.
Proof.
  intros [H0 H] Hk. destruct m as [|p|p]; simpl; try lia.
  pose proof (digits2_pos_lower p) as L.
  assert (2 ^ (Zpos (digits2_pos p) - 1) < 2 ^ k) by lia.
  apply Z.pow_lt_mono_r_iff in H1; lia.
Qed.

Lemma pos_iter_xO_pow m d : Zpos (Pos.iter xO m d) = Zpos m * 2 ^ Zpos d.
Proof.
  induction d using Pos.peano_ind.
  - simpl. lia.
  - rewrite Pos.iter_succ, Pos2Z.inj_succ, Z.pow_succ_r by lia. lia.
Qed.

Lemma shl_align_value m e e' :
  -1074 <= e -> -1074 <= e' ->
  Zpos (fst (shl_align m e e')) * 2 ^ (snd (shl_align m e e') + 1074)
  = Zpos m * 2 ^ (e + 1074) /\
  -1074 <= snd (shl_align m e e') <= e.
Proof.
  intros He He'. unfold shl_align.
  destruct (e' - e) as [|d|d] eqn:E; cbn [fst snd]; try (split; lia).
  rewrite pos_iter_xO_pow. split; [|lia].
  replace (e + 1074) with (Zpos d + (e' + 1074)) by lia.
  rewrite (Z.pow_add_r 2 (Zpos d) (e' + 1074)) by lia. lia.
Qed.

Lemma shr_fexp_step m e l E :
  0 <= m -> -1074 <= e <= E ->
  m * 2 ^ (e + 1074) < 2 ^ (53 + E + 1074) ->
  0 <= shr_m (fst (shr_fexp prec emax m e l)) /\
  -1074 <= snd (shr_fexp prec emax m e l) <= E /\
  shr_m (fst (shr_fexp prec emax m e l))
  * 2 ^ (snd (shr_fexp prec emax m e l) + 1074)
  <= m * 2 ^ (e + 1074).
Proof.
  intros Hm He Hb.
  pose proof (shr_fexp_nonneg m e l Hm) as N.
  split; [assumption|].
  assert (D : Zdigits2 m <= 53 + E - e).
  { apply Zdigits2_upper; [|lia]. split; [assumption|].
    replace (53 + E + 1074) with ((53 + E - e) + (e + 1074)) in Hb by lia.
    rewrite (Z.pow_add_r 2 (53 + E - e) (e + 1074)) in Hb by lia.
    assert (0 < 2 ^ (e + 1074)) by (apply Z.pow_pos_nonneg; lia).
    nia. }
  unfold shr_fexp, fexp, SpecFloat.emin, prec, emax, shr in *.
  destruct (Z.max (Zdigits2 m + e - 53) (3 - 1024 - 53) - e)
    as [|q|q] eqn:Q; cbn [fst snd] in *; rewrite ?shr_record_of_loc_m in *;
    try (split; lia).
  split; [lia|].
  pose proof (iter_shr_1_upper q (shr_record_of_loc m l)) as U.
  rewrite shr_record_of_loc_m in U. specialize (U Hm).
  replace (e + Zpos q + 1074) with (Zpos q + (e + 1074)) by lia.
  rewrite (Z.pow_add_r 2 (Zpos q) (e + 1074)) by lia.
  assert (0 < 2 ^ (e + 1074)) by (apply Z.pow_pos_nonneg; lia).
  nia.
Qed.

Lemma round_nearest_even_upper m l : round_nearest_even m l <= m + 1.
Proof.
  destruct l as [|[]]; simpl; try lia. destruct (Z.even m); lia.
Qed.

(** A positive number below a representable one is rounded to a finite
    value. *)
Lemma binary_round_aux_no_overflow s m e l M E :
  0 <= m -> -1074 <= e <= E -> E <= 971 -> 0 < M < 2 ^ 53 ->
  m * 2 ^ (e + 1074) < M * 2 ^ (E + 1074) ->
  sf_finite (binary_round_aux prec emax s m e l) = true.
Proof.
  intros Hm He HE HM Hb. unfold binary_round_aux.
  assert (PE : 0 < 2 ^ (E + 1074)) by (apply Z.pow_pos_nonneg; lia).
  assert (B0 : m * 2 ^ (e + 1074) < 2 ^ (53 + E + 1074)).
  { replace (53 + E + 1074) with (53 + (E + 1074)) by lia.
    rewrite (Z.pow_add_r 2 53 (E + 1074)) by lia. nia. }
  destruct (shr_fexp_step m e l E Hm He B0) as (N1 & E1 & U1).
  destruct (shr_fexp prec emax m e l) as [mrs' e1]; cbn [fst snd] in *.
  set (m2 := round_nearest_even (shr_m mrs') (loc_of_shr_record mrs')).
  assert (N2 : 0 <= m2)
    by (apply round_nearest_even_nonneg; assumption).
  assert (U2 : m2 * 2 ^ (e1 + 1074) <= M * 2 ^ (E + 1074)).
  { pose proof (round_nearest_even_upper (shr_m mrs')
                  (loc_of_shr_record mrs')) as R. fold m2 in R.
    assert (P1 : 0 < 2 ^ (e1 + 1074)) by (apply Z.pow_pos_nonneg; lia).
    replace (E + 1074) with ((E - e1) + (e1 + 1074)) in * by lia.
    rewrite (Z.pow_add_r 2 (E - e1) (e1 + 1074)) in * by lia.
    assert (shr_m mrs' < M * 2 ^ (E - e1)) by nia.
    nia. }
  assert (B2 : m2 * 2 ^ (e1 + 1074) < 2 ^ (53 + E + 1074)).
  { replace (53 + E + 1074) with (53 + (E + 1074)) by lia.
    rewrite (Z.pow_add_r 2 53 (E + 1074)) by lia. nia. }
  destruct (shr_fexp_step m2 e1 loc_Exact E N2 E1 B2) as (N3 & E3 & _).
  destruct (shr_fexp prec emax m2 e1 loc_Exact) as [mrs'' e2];
    cbn [fst snd] in *.
  destruct (shr_m mrs'') as [|p|p]; try lia; try reflexivity.
  unfold prec, emax. destruct (Z.leb_spec e2 (1024 - 53)); [reflexivity|lia].
Qed.

Lemma binary_round_no_overflow s p e M E :
  -1074 <= e <= E -> E <= 971 -> 0 < M < 2 ^ 53 ->
  Zpos p * 2 ^ (e + 1074) < M * 2 ^ (E + 1074) ->
  sf_finite (binary_round prec emax s p e) = true.
Proof.
  intros He HE HM Hb. unfold binary_round.
  destruct (shl_align_value p e (fexp prec emax (Zpos (digits2_pos p) + e)))
    as (V & R); [lia | unfold fexp, SpecFloat.emin, prec, emax; lia |].
  destruct (shl_align p e _) as [mz e0]; cbn [fst snd] in *.
  apply (binary_round_aux_no_overflow s (Zpos mz) e0 loc_Exact M E);
    try lia.
Qed.

Lemma shl_align_snd m e e' : e' <= e -> snd (shl_align m e e') = e'.
Proof.
  intros H. unfold shl_align. destruct (e' - e) eqn:E; simpl; lia.
Qed.

(** The difference of two finite values [a >= b >= 0] does not overflow. *)
Lemma SFsub_no_overflow a b :
  valid_binary a = true -> valid_binary b = true ->
  sf_finite a = true -> sf_finite b = true ->
  SFleb (S754_zero false) b = true ->
  SFltb a b = false ->
  sf_finite (SF64sub a b) = true.
Proof.
  intros Va Vb Fa Fb.
  destruct a as [sa|sa| |sa ma ea], b as [sb|sb| |sb mb eb];
    try discriminate.
  - intros _ _. now destruct sa, sb.
  - destruct sb; [discriminate|]. intros _. discriminate.
  - intros _ _. reflexivity.
  - destruct sb; [discriminate|]. intros _ L.
    destruct sa; [discriminate|].
    pose proof (aligned_difference_nonneg _ _ _ _ _ _ Va Vb L) as D.
    destruct (bounded_mantissa _ _ Va) as (Ma & Ea & _).
    destruct (bounded_mantissa _ _ Vb) as (Mb & Eb & _).
    assert (Ea' : ea <= 971).
    { unfold valid_binary, bounded in Va.
      apply andb_true_iff in Va as [_ Va]. apply Z.leb_le in Va.
      unfold prec, emax in Va. lia. }
    unfold SF64sub, SFsub. cbn [cond_Zopp] in *.
    destruct (shl_align_value ma ea (Z.min ea eb)) as (V & _); try lia.
    rewrite shl_align_snd in V by lia.
    change IntDef.Z.min with Z.min.
    remember (Z.pos (fst (shl_align ma ea (Z.min ea eb)))
              - Z.pos (fst (shl_align mb eb (Z.min ea eb)))) as d eqn:Q.
    destruct d as [|p|p]; cbn [binary_normalize]; [reflexivity| |lia].
    assert (0 < 2 ^ (Z.min ea eb + 1074)) by (apply Z.pow_pos_nonneg; lia).
    apply (binary_round_no_overflow false p (Z.min ea eb) (Zpos ma) ea);
      try lia; nia.
Qed.

End Spec.

Lemma sf_finite_is_finite a :
  sf_finite (Prim2SF a) = true -> is_finite a = true.
Proof.
  unfold is_finite, is_nan, is_infinity.
  rewrite !eqb_spec, abs_spec, Prim2SF_infinity, SFeqb_refl.
  destruct (Prim2SF a) as [s|s| |s m e]; try discriminate; reflexivity.
Qed.

Lemma sub_is_finite a b :
  is_finite a = true -> is_finite b = true ->
  (0 <=? b) = true -> (a <? b) = false -> is_finite (a - b) = true.
Proof.
  intros Fa Fb. rewrite leb_spec, ltb_spec, Prim2SF_zero. intros Hb L.
  apply sf_finite_is_finite. rewrite sub_spec.
  apply SFsub_no_overflow; auto using Prim2SF_valid, is_finite_sf.
Qed.

End Binary64Range.

(** * Responses that can be encoded *)

Section Encodable.

Import Binary64 Binary64Range.

Lemma plain_line_box l b :
  plain_line l -> normalize l = Return b -> box_compliant b = true.
Proof.
  intros (Px & Py & Ps) H.
  destruct (normalize_extent _ _ H)
    as ((xh & Ixh & Ix & Hx & Hw) & (yh & Iyh & Iy & Hy & Hh)).
  apply normalize_bounding_box in H
    as (_ & _ & _ & _ & _ & _ & _ & _ & _ & Hc).
  unfold box_compliant. rewrite Hw, Hh, Hc, Ps.
  destruct (Px _ Ix) as [Fx Nx], (Px _ Ixh) as [Fxh _],
    (Py _ Iy) as [Fy Ny], (Py _ Iyh) as [Fyh _].
  rewrite Fx, Fy, !sub_is_finite by assumption. reflexivity.
Qed.

(** X4. For detections whose coordinates are finite and not below zero and
    whose score is finite, every number of the box is finite: [max - min]
    does not overflow.  The response of such a result holds neither NaN nor
    infinity and is sent with status 200, whatever the encoder does with
    such values. *)
Theorem plain_detections_are_encodable :
  (forall l b,
     plain_line l -> normalize l = Return b -> box_compliant b = true) /\
  (forall A nf (decode : bytes -> outcome A) ocr content img
          (pages : list (list line)),
     decode content = Return img ->
     ocr img = Return (Some (map Some pages)) ->
     Forall (fun l => fst l <> []) (concat pages) ->
     Forall plain_line (concat pages) ->
     exists r,
       ocr_image decode ocr content = Return r /\
       json_compliant r = true /\
       post_ocr nf decode ocr content
       = {| status := 200; body := JsonBody r |}).
Proof.
  split; [exact plain_line_box|].
  intros A nf decode ocr content img pages Hd Ho Hne Hp.
  destruct (Forall2_normalizes_total _ Hne) as [bs Hbs].
  assert (C : forallb box_compliant bs = true).
  { clear Hne. induction Hbs as [|l b ls bs' Hl _ IH]; simpl; auto.
    inversion Hp; subst.
    rewrite (plain_line_box l b), IH; auto. }
  apply result_to_boxes_lists in Hbs.
  exists {| boxes := bs |}. unfold post_ocr.
  rewrite (ocr_image_unfold _ _ _ _ _ Hd Ho), Hbs.
  unfold respond, json_compliant; simpl. rewrite C. auto.
Qed.

Lemma plain_detections_are_encodable_witness :
  box_compliant box_hello = true.
Proof.
  apply (proj1 plain_detections_are_encodable line_hello box_hello).
  - split; [|split; [|reflexivity]]; intros v Hv; simpl in Hv;
      repeat (destruct Hv as [<-|Hv]; [split; reflexivity|]); contradiction.
  - reflexivity.
Defined.

End Encodable.
